(** * Kurma: boot-time orchestration and image upload

    A shallow embedding of [init/bootstrap.go] (package [init]) and of
    [client/cli/commands/create/cmd_create.go] (package [create]), with the
    properties of the boot steps, of manifest extraction and of the
    streaming upload stated over it.

    Conventions.
    - A Go [error] is an [option error]: [None] is [nil].
    - A step of the runner is a state transformer over the [World], the
      chronological trace of everything the step did to the outside
      (log lines, system calls, calls to collaborators) together with the
      answer it got.
    - The outside is an [Env]: one oracle per external call.  Theorems
      quantify over every [Env]; examples run in a concrete one. *)

From stdpp Require Import base strings list gmap.
From Equations Require Import Equations.
From Stdlib Require Import Ascii NArith.
From Stdlib Require String.

Open Scope string_scope.
Open Scope list_scope.

(** ** The Go standard library, as far as the sources use it *)

Module Go.

(** The characters of a string, and back. *)
Fixpoint chars (s : string) : list ascii :=
  match s with
  | EmptyString => []
  | String c s' => c :: chars s'
  end.

Fixpoint of_chars (l : list ascii) : string :=
  match l with
  | [] => EmptyString
  | c :: l' => String c (of_chars l')
  end.

Definition slash : ascii := "/"%char.

(** [strings.Split(s, "/")]: the components between slashes. *)
Fixpoint split_slash (cur : list ascii) (l : list ascii) : list (list ascii) :=
  match l with
  | [] => [rev cur]
  | c :: l' =>
      if Ascii.eqb c slash then rev cur :: split_slash [] l'
      else split_slash (c :: cur) l'
  end.

Definition is_dot (e : list ascii) : bool :=
  match e with ["."%char] => true | _ => false end.

Definition is_dotdot (e : list ascii) : bool :=
  match e with ["."%char; "."%char] => true | _ => false end.

(** One step of [filepath.Clean] over the components kept so far
    ([out], innermost first): empty and [.] components vanish, [..]
    removes the component before it, stays at the front of a relative
    path, and is dropped at the root. *)
Definition clean_step (rooted : bool) (out : list (list ascii)) (e : list ascii)
  : list (list ascii) :=
  match e with
  | [] => out
  | _ =>
      if is_dot e then out
      else if is_dotdot e then
        match out with
        | [] => if rooted then [] else [e]
        | top :: out' => if is_dotdot top then e :: out else out'
        end
      else e :: out
  end.

Fixpoint join_slash (l : list (list ascii)) : list ascii :=
  match l with
  | [] => []
  | [e] => e
  | e :: l' => e ++ slash :: join_slash l'
  end.

(** [filepath.Clean] on a slash-separated path. *)
Definition Clean (path : string) : string :=
  match chars path with
  | [] => "."
  | (c :: _) as l =>
      let rooted := Ascii.eqb c slash in
      let out := rev (fold_left (clean_step rooted) (split_slash [] l) []) in
      match rooted, out with
      | true, _ => of_chars (slash :: join_slash out)
      | false, [] => "."
      | false, _ => of_chars (join_slash out)
      end
  end.

(** [filepath.Join] of two elements: empty elements are ignored, the
    rest is joined by a slash and cleaned. *)
Definition Join (a b : string) : string :=
  match a, b with
  | EmptyString, EmptyString => EmptyString
  | EmptyString, _ => Clean b
  | _, EmptyString => Clean a
  | _, _ => Clean (a +:+ "/" +:+ b)
  end.

(** *** [regexp.MatchString], on a fragment of the RE2 syntax

    The fragment: literal ASCII characters, [.], the anchors [^] and
    [$], grouping, alternation, and the postfix operators [*], [+], [?]
    with their non-greedy forms.  Classes, escapes, counted repetition
    and group flags are outside it; the compiler below refuses them,
    as it refuses the patterns [regexp.Compile] refuses inside the
    fragment (a repetition with no argument, a stacked repetition, an
    unbalanced parenthesis). *)

Inductive re : Type :=
| Void                       (* matches nothing *)
| Eps                        (* the empty string *)
| Chr (c : ascii)
| Any                        (* any character but a newline *)
| Bol                        (* beginning of text *)
| Eol                        (* end of text *)
| Cat (r1 r2 : re)
| Alt (r1 r2 : re)
| Star (r : re).

Definition newline : ascii := "010"%char.

(** Does [r] match the empty string at a position that is at the
    beginning ([bot]) or at the end ([eot]) of the text? *)
Fixpoint nullable (bot eot : bool) (r : re) : bool :=
  match r with
  | Void | Chr _ | Any => false
  | Eps | Star _ => true
  | Bol => bot
  | Eol => eot
  | Cat r1 r2 => nullable bot eot r1 && nullable bot eot r2
  | Alt r1 r2 => nullable bot eot r1 || nullable bot eot r2
  end.

(** What is left of [r] after reading [c] at a position that is at the
    beginning of the text iff [bot]. *)
Fixpoint deriv (bot : bool) (c : ascii) (r : re) : re :=
  match r with
  | Void | Eps | Bol | Eol => Void
  | Chr a => if Ascii.eqb a c then Eps else Void
  | Any => if Ascii.eqb c newline then Void else Eps
  | Cat r1 r2 =>
      let d := Cat (deriv bot c r1) r2 in
      if nullable bot false r1 then Alt d (deriv bot c r2) else d
  | Alt r1 r2 => Alt (deriv bot c r1) (deriv bot c r2)
  | Star r1 => Cat (deriv bot c r1) (Star r1)
  end.

(** Does [r] match some prefix of the rest [s] of the text? *)
Fixpoint match_here (bot : bool) (r : re) (s : list ascii) : bool :=
  match s with
  | [] => nullable bot true r
  | c :: s' => nullable bot false r || match_here false (deriv bot c r) s'
  end.

(** Does [r] match somewhere in the text (no implicit anchors)? *)
Fixpoint match_anywhere (bot : bool) (r : re) (s : list ascii) : bool :=
  match_here bot r s ||
  match s with
  | [] => false
  | _ :: s' => match_anywhere false r s'
  end.

(** The compiler keeps a stack of open groups; each holds the finished
    alternatives and the atoms of the alternative being read, both
    latest first. *)
Record frame : Type := Frame { alts : list re; cur : list re }.

Inductive last_token : Type :=
| TStart        (* nothing to repeat: start, after an open paren or a bar *)
| TAtom
| TRep          (* a repetition operator; a [?] now makes it non-greedy *)
| TRepLazy.

Definition cat_of (atoms : list re) : re :=
  fold_left (fun acc a => Cat a acc) atoms Eps.

Definition alt_of (f : frame) : re :=
  fold_left (fun acc a => Alt a acc) (alts f) (cat_of (cur f)).

Definition repeat_op (op : ascii) (r : re) : re :=
  if Ascii.eqb op "*" then Star r
  else if Ascii.eqb op "+" then Cat r (Star r)
  else Alt r Eps.

Definition push_atom (a : re) (f : frame) : frame :=
  Frame (alts f) (a :: cur f).

Fixpoint compile_from (stack : list frame) (lt : last_token) (s : list ascii)
  : option re :=
  match s, stack with
  | _, [] => None
  | [], [f] => Some (alt_of f)
  | [], _ => None
  | c :: s', f :: up =>
      if Ascii.eqb c "(" then compile_from (Frame [] [] :: stack) TStart s'
      else if Ascii.eqb c ")" then
        match up with
        | [] => None
        | g :: up' => compile_from (push_atom (alt_of f) g :: up') TAtom s'
        end
      else if Ascii.eqb c "|" then
        compile_from (Frame (cat_of (cur f) :: alts f) [] :: up) TStart s'
      else if Ascii.eqb c "*" || Ascii.eqb c "+" || Ascii.eqb c "?" then
        match lt, cur f with
        | TAtom, a :: atoms =>
            compile_from (Frame (alts f) (repeat_op c a :: atoms) :: up) TRep s'
        | TRep, _ => if Ascii.eqb c "?" then compile_from stack TRepLazy s' else None
        | _, _ => None
        end
      else if Ascii.eqb c "." then compile_from (push_atom Any f :: up) TAtom s'
      else if Ascii.eqb c "^" then compile_from (push_atom Bol f :: up) TAtom s'
      else if Ascii.eqb c "$" then compile_from (push_atom Eol f :: up) TAtom s'
      else if Ascii.eqb c "[" || Ascii.eqb c "{" || Ascii.eqb c "\"
              || (127 <? N_of_ascii c)%N then None
      else compile_from (push_atom (Chr c) f :: up) TAtom s'
  end.

Definition Compile (pattern : string) : option re :=
  compile_from [Frame [] []] TStart (chars pattern).

(** [regexp.MatchString(pattern, s)], with the error dropped as the
    caller drops it: a pattern that does not compile matches nothing. *)
Definition MatchString (pattern s : string) : bool :=
  match Compile pattern with
  | Some r => match_anywhere true r (chars s)
  | None => false
  end.

(** *** [net.ParseIP], on dotted-quad IPv4 text

    The result is an address in the 16-byte form, or [None] (Go's
    [nil]) for text that is not an address.  Text without a dot is
    never an IPv4 address; IPv6 text is outside this model. *)

Definition digit_of (c : ascii) : option N :=
  let n := N_of_ascii c in
  if ((48 <=? n) && (n <=? 57))%N then Some (n - 48)%N else None.

(** A decimal field: at least one digit, value at most 255. *)
Fixpoint dec_field (acc : N) (seen : nat) (l : list ascii) : option N :=
  match l with
  | [] => if (0 <? seen)%nat then Some acc else None
  | c :: l' =>
      match digit_of c with
      | Some d =>
          let acc' := (acc * 10 + d)%N in
          if (255 <? acc')%N then None else dec_field acc' (S seen) l'
      | None => None
      end
  end.

Fixpoint split_dot (cur : list ascii) (l : list ascii) : list (list ascii) :=
  match l with
  | [] => [rev cur]
  | c :: l' =>
      if Ascii.eqb c "." then rev cur :: split_dot [] l'
      else split_dot (c :: cur) l'
  end.

Definition v4InV6Prefix : list N := [0; 0; 0; 0; 0; 0; 0; 0; 0; 0; 255; 255]%N.

Definition ParseIP (s : string) : option (list N) :=
  match split_dot [] (chars s) with
  | [a; b; c; d] =>
      match dec_field 0 0 a, dec_field 0 0 b, dec_field 0 0 c, dec_field 0 0 d with
      | Some a', Some b', Some c', Some d' => Some (v4InV6Prefix ++ [a'; b'; c'; d'])
      | _, _, _, _ => None
      end
  | _ => None
  end.

End Go.

Arguments Go.Clean : simpl never.
Arguments Go.Join : simpl never.

(** ** Errors, events and the world *)

(** A Go [error].  [Errorf] keeps the format string and the arguments of
    [fmt.Errorf] apart, as the source writes them. *)
Inductive error : Type :=
| ErrNotExist                                  (* [os.IsNotExist] holds of it *)
| Errno (name : string)                        (* any other failure from outside *)
| Errorf (format : string) (args : list fmtarg)
with fmtarg : Type :=
| AStr (s : string)
| AErr (e : error).

(** [os.IsNotExist(err)]; false on [nil]. *)
Definition IsNotExist (err : option error) : bool :=
  match err with
  | Some ErrNotExist => true
  | _ => false
  end.

(** A call that returns a value or an error. *)
Inductive result (A : Type) : Type :=
| Ok (a : A)
| Err (e : error).
Arguments Ok {A} a.
Arguments Err {A} e.

Definition err_of {A} (r : result A) : option error :=
  match r with
  | Ok _ => None
  | Err e => Some e
  end.

Inductive level : Type := LTrace | LInfo | LWarn | LError.

(** The line feed that ends a line written to a file. *)
Definition LF : string := String "010"%char EmptyString.

(** Flags of [os.OpenFile] (Linux values) and their union. *)
Definition O_WRONLY : N := 1.
Definition O_CREATE : N := 64.
Definition O_TRUNC : N := 512.

(** [netlink.Link], by its attributes. *)
Record Link : Type := { LinkIndex : nat; LinkName : string }.

(** Modelled from the spec: [kurmaNetworkInterface], whose declaration is
    not in the sources: a device match pattern, the addressing mode and
    the static address.  Only [Device] is read here. *)
Record kurmaNetworkInterface : Type :=
  { Device : string; DHCP : bool; Address : string }.

(** [netlink.SCOPE_UNIVERSE]. *)
Definition SCOPE_UNIVERSE : N := 0.

(** [netlink.Route], by the fields the source sets; [Gw = None] is a nil
    address. *)
Record Route : Type := { Scope : N; Gw : option (list N) }.

(** [proc.MountPoint]. *)
Record MountPoint : Type :=
  { Dev : string; Path : string; Fstype : string; Options : string }.

(** A byte slice. *)
Abbreviation bytes := (list Byte.byte).

(** The image manifest package [init] works with, by the one field the
    source reads. *)
Record ImageManifest : Type := { Name : string }.

(** The answer of the remote [Create] call, by the one field the source
    reads. *)
Record CreateResponse : Type := { ImageUploadId : string }.

(** One entry of an archive as [tar.Reader] delivers it: the name in its
    header, and what reading the entry to its end gives. *)
Record tarEntry : Type := { hdrName : string; payload : result bytes }.

(** An [io.Reader] over an image, by what reading it as an archive gives:
    either compression detection fails, or [Next] yields the entries in
    turn and then stops, with [io.EOF] ([stop = None]) or with a read
    error. *)
Inductive Reader : Type :=
| BadStream (e : error)
| TarStream (entries : list tarEntry) (stop : option error).

(** An open [os.File]: the bytes that reading it from offset zero
    delivers, how the reading ends after them, at the end of the file
    ([readError = None]) or with an error, and how the bytes read as an
    archive. *)
Record File : Type :=
  { contents : bytes; readError : option error; archive : Reader }.

(** Everything a step does to the outside, with the answer it got. *)
Inductive event : Type :=
| ELog (lvl : level) (format : string) (args : list fmtarg)
| ELstat (path : string) (res : option error)
| EMountPoints (res : option error)
| EMount (source location fstype data : string) (res : option error)
| EOpenFile (path : string) (flag perm : N) (res : option error)
| EWrite (path : string) (data : string) (res : option error)
| EClose (path : string)
| ERemoveAll (path : string) (res : option error)
| ESethostname (name : string) (res : option error)
| ELinkList (res : option error)
| EConfigureInterface (link : Link) (netconf : kurmaNetworkInterface)
                      (res : option error)
| ERouteAdd (route : Route) (res : option error)
| ERetrieveImage (img : string) (res : option error)
| EFindManifest (img : string) (res : option error)
| ESeek (img : string) (offset : Z) (whence : nat) (res : option error)
| EManagerCreate (name : string) (manifest : ImageManifest) (img : string)
                 (res : option error)
| EOpen (path : string) (res : result File)
| EClientCreate (manifest : bytes) (res : result CreateResponse)
| EUploadImage (res : option error)
| ESend (streamId : string) (chunk : bytes) (res : option error)
| ECloseAndRecv (res : option error).

(** The history: what has happened so far, oldest first. *)
Definition World : Type := list event.

(** The outside, one oracle per call.  An oracle sees the history, so the
    same call may be answered differently at different times.  Besides
    the kernel and the libraries, the outside holds the collaborators of
    the repository that are not in the sources: [configureInterface] and
    the manifest reader of package [init], the container manager, the
    image retrieval and the remote client.  The two pure library
    functions, [regexp.MatchString] (with its error dropped) and
    [net.ParseIP], do not depend on the history. *)
Record Env : Type := {
  os_Lstat : World -> string -> option error;
  proc_MountPoints : World -> result (gmap string MountPoint);
  syscall_Mount : World -> string -> string -> string -> string -> option error;
  os_OpenFile : World -> string -> N -> N -> option error;
  file_Write : World -> string -> string -> option error;
  os_RemoveAll : World -> string -> option error;
  syscall_Sethostname : World -> string -> option error;
  netlink_LinkList : World -> result (list Link);
  init_configureInterface : World -> Link -> kurmaNetworkInterface -> option error;
  regexp_MatchString : string -> string -> bool;
  net_ParseIP : string -> option (list N);
  netlink_RouteAdd : World -> Route -> option error;
  remote_RetrieveImage : World -> string -> option error;
  init_findManifest : World -> string -> result ImageManifest;
  file_Seek : World -> string -> Z -> nat -> option error;
  manager_Create : World -> string -> ImageManifest -> string -> option error;
  os_Open : World -> string -> result File;
  client_Create : World -> bytes -> result CreateResponse;
  client_UploadImage : World -> option error;
  stream_Send : World -> string -> bytes -> option error;
  stream_CloseAndRecv : World -> option error
}.

(** ** The monad of a step

    A step reads the history and returns its value with the events it
    added, oldest first. *)
Definition M (A : Type) : Type := World -> A * list event.

#[global] Instance M_ret : MRet M := fun A a _ => (a, []).

#[global] Instance M_bind : MBind M := fun A B f m w =>
  let '(a, evs1) := m w in
  let '(b, evs2) := f a (w ++ evs1) in
  (b, evs1 ++ evs2).

(** Ask the outside and record the answer. *)
Definition call {R : Type} (oracle : World -> R) (ev : R -> event) : M R :=
  fun w => let r := oracle w in (r, [ev r]).

(** Do something that has no answer. *)
Definition emit (ev : event) : M unit := fun _ => (tt, [ev]).

Definition log (lvl : level) (format : string) (args : list fmtarg) : M unit :=
  emit (ELog lvl format args).

(** The value and the events of a step run after history [w]. *)
Definition value {A} (m : M A) (w : World) : A := fst (m w).
Definition events {A} (m : M A) (w : World) : list event := snd (m w).

(** ** Package [init]: the boot steps of [bootstrap.go] *)

(** Modelled from the spec: [kurmaNetworkConfig] and [kurmaConfig], whose
    declarations are not in the sources, with the fields the steps below
    read.  [NetworkConfig = None] is the nil pointer. *)
Record kurmaNetworkConfig : Type :=
  { Interfaces : list kurmaNetworkInterface; Gateway : string; DNS : list string }.

Record kurmaConfig : Type :=
  { Hostname : string;
    NetworkConfig : option kurmaNetworkConfig;
    InitContainers : list string }.

Module Init.
Section Runner.

Variable env : Env.

(** Constants of the package and of [proc] declared outside the sources. *)
Variable cgroupsMount : string.
Variable MountProcFile : string.

(** Modelled from the spec: [handleMount], which is not in the sources:
    it invokes the mount syscall with (source, target, fstype, no extra
    flags) and the given options, and returns its error. *)
Definition handleMount (source location fstype data : string) : M (option error) :=
  call (fun w => syscall_Mount env w source location fstype data)
       (EMount source location fstype data).

(** *** [createSystemMounts] *)

(** The default mounts: mount location, source, fstype. *)
Definition systemMounts : list (string * string * string) :=
  [ ("/dev", "devtmpfs", "devtmpfs");
    ("/dev/pts", "none", "devpts");
    ("/proc", "none", "proc");
    ("/sys", "none", "sysfs");
    ("/tmp", "none", "tmpfs");
    ("/var/kurma", "none", "tmpfs");
    (cgroupsMount, "none", "tmpfs") ].

(** The loop of [createSystemMounts] over the mounts that are left. *)
Fixpoint mountEach (existingMounts : gmap string MountPoint)
         (mounts : list (string * string * string)) : M (option error) :=
  match mounts with
  | [] => mret None
  | (location, source, fstype) :: rest =>
      match existingMounts !! location with
      | Some _ =>
          log LTrace "- skipping %q, already mounted" [AStr location];;
          mountEach existingMounts rest
      | None =>
          log LTrace "- mounting %q (type %q) to %q"
              [AStr source; AStr fstype; AStr location];;
          err ← handleMount source location fstype EmptyString;
          match err with
          | Some e =>
              mret (Some (Errorf "failed to mount %q: %v" [AStr location; AErr e]))
          | None => mountEach existingMounts rest
          end
      end
  end.

Definition createSystemMounts : M (option error) :=
  log LInfo "Creating system mounts" [];;
  err ← call (fun w => os_Lstat env w MountProcFile) (ELstat MountProcFile);
  match err with
  | Some e =>
      if IsNotExist err then mountEach ∅ systemMounts
      else mret (Some (Errorf "failed to check if %q existed: %v"
                              [AStr MountProcFile; AErr e]))
  | None =>
      r ← call (fun w => proc_MountPoints env w) (fun r => EMountPoints (err_of r));
      match r with
      | Err e =>
          mret (Some (Errorf "failed to read existing mount points: %v" [AErr e]))
      | Ok existingMounts => mountEach existingMounts systemMounts
      end
  end.

(** *** [mountCgroups] *)

Definition cgroupTypes : list string :=
  ["blkio"; "cpu"; "cpuacct"; "devices"; "memory"].

(** The closure run for the memory mount: set [memory.use_hierarchy = 1].
    The deferred [Close] runs on both ways out once the file is open. *)
Definition setUseHierarchy (location : string) : M (option error) :=
  let hpath := Go.Join location "memory.use_hierarchy" in
  let flag := N.lor O_WRONLY O_TRUNC in
  err ← call (fun w => os_OpenFile env w hpath flag 420%N) (EOpenFile hpath flag 420%N);
  match err with
  | Some e => mret (Some (Errorf "Failed to configure memory hierarchy: %v" [AErr e]))
  | None =>
      werr ← call (fun w => file_Write env w hpath ("1" +:+ LF)) (EWrite hpath ("1" +:+ LF));
      emit (EClose hpath);;
      match werr with
      | Some e =>
          mret (Some (Errorf "Failed to configure memory heirarchy: %v" [AErr e]))
      | None => mret None
      end
  end.

(** The loop of [mountCgroups] over the controllers that are left. *)
Fixpoint mountEachCgroup (types : list string) : M (option error) :=
  match types with
  | [] => mret None
  | cgrouptype :: rest =>
      let location := Go.Join cgroupsMount cgrouptype in
      log LTrace "- mounting cgroup %q to %q" [AStr cgrouptype; AStr location];;
      err ← handleMount "none" location "cgroup" cgrouptype;
      match err with
      | Some e =>
          mret (Some (Errorf "failed to mount cgroup %q: %v" [AStr cgrouptype; AErr e]))
      | None =>
          if String.eqb cgrouptype "memory" then
            herr ← setUseHierarchy location;
            match herr with
            | Some e => mret (Some e)
            | None => mountEachCgroup rest
            end
          else mountEachCgroup rest
      end
  end.

Definition mountCgroups : M (option error) :=
  log LInfo "Setting up cgroups" [];;
  mountEachCgroup cgroupTypes.

(** *** [configureHostname] *)

Definition configureHostname (config : kurmaConfig) : M (option error) :=
  if String.eqb (Hostname config) EmptyString then mret None
  else
    log LInfo "Setting hostname: %s" [AStr (Hostname config)];;
    err ← call (fun w => syscall_Sethostname env w (Hostname config))
               (ESethostname (Hostname config));
    match err with
    | Some e => log LError "- Failed to set hostname: %v" [AErr e]
    | None => mret tt
    end;;
    mret None.

(** *** [configureNetwork] *)

(** The search of [configureNetwork] for a matching network config
    entry, over the entries that are left. *)
Fixpoint findNetconf (linkName : string) (interfaces : list kurmaNetworkInterface)
  : option kurmaNetworkInterface :=
  match interfaces with
  | [] => None
  | n :: rest =>
      if String.eqb linkName (Device n) then Some n
      else if regexp_MatchString env (Device n) linkName then Some n
      else findNetconf linkName rest
  end.

(** The loop of [configureNetwork] over the links that are left. *)
Fixpoint configureLinks (nc : kurmaNetworkConfig) (links : list Link) : M unit :=
  match links with
  | [] => mret tt
  | link :: rest =>
      let linkName := LinkName link in
      log LInfo "Configuring %s..." [AStr linkName];;
      match findNetconf linkName (Interfaces nc) with
      | None =>
          log LWarn "- no matching network configuraton found" [];;
          configureLinks nc rest
      | Some netconf =>
          err ← call (fun w => init_configureInterface env w link netconf)
                     (EConfigureInterface link netconf);
          match err with
          | Some e => log LWarn "- %s" [AErr e]
          | None => mret tt
          end;;
          configureLinks nc rest
      end
  end.

Definition resolvConf : string := "/etc/resolv.conf".

(** The loop writing one line per name server; it stops at the first
    write that fails. *)
Fixpoint writeNameservers (dns : list string) : M (option error) :=
  match dns with
  | [] => mret None
  | ns :: rest =>
      err ← call (fun w => file_Write env w resolvConf ("nameserver " +:+ ns +:+ LF))
                 (EWrite resolvConf ("nameserver " +:+ ns +:+ LF));
      match err with
      | Some e => mret (Some e)
      | None => writeNameservers rest
      end
  end.

(** The end of [configureNetwork], from [// configure DNS] on. *)
Definition configureDNS (nc : kurmaNetworkConfig) : M (option error) :=
  if (0 <? length (DNS nc))%nat then
    err ← call (fun w => os_RemoveAll env w resolvConf) (ERemoveAll resolvConf);
    match err with
    | Some e => mret (Some e)
    | None =>
        err ← call (fun w => os_OpenFile env w resolvConf O_CREATE 420%N)
                   (EOpenFile resolvConf O_CREATE 420%N);
        match err with
        | Some e => mret (Some e)
        | None =>
            r ← writeNameservers (DNS nc);
            emit (EClose resolvConf);;
            mret r
        end
    end
  else mret None.

Definition configureNetwork (config : kurmaConfig) : M (option error) :=
  match NetworkConfig config with
  | None =>
      log LWarn "No network configuration given, skipping" [];;
      mret None
  | Some nc =>
      r ← call (fun w => netlink_LinkList env w) (fun r => ELinkList (err_of r));
      match r with
      | Err e => mret (Some e)
      | Ok links =>
          configureLinks nc links;;
          if negb (String.eqb (Gateway nc) EmptyString) then
            let gateway := net_ParseIP env (Gateway nc) in
            match gateway with
            | None => log LWarn "Failed to configure gatway to %q" [AStr (Gateway nc)]
            | Some _ => mret tt
            end;;
            let route := {| Scope := SCOPE_UNIVERSE; Gw := gateway |} in
            err ← call (fun w => netlink_RouteAdd env w route) (ERouteAdd route);
            match err with
            | Some e =>
                log LWarn "Failed to configure gateway: %v" [AErr e];;
                mret None
            | None =>
                log LInfo "Configured gatway to %s" [AStr (Gateway nc)];;
                configureDNS nc
            end
          else configureDNS nc
      end
  end.

(** *** [startInitContainers] *)

(** The closure run for one image.  The retrieved file is named by its
    image; the deferred [Close] runs on every way out once it is open. *)
Definition startInitContainer (img : string) : M unit :=
  err ← call (fun w => remote_RetrieveImage env w img) (ERetrieveImage img);
  match err with
  | Some e => log LError "Failed to retrieve image %q: %v" [AStr img; AErr e]
  | None =>
      r ← call (fun w => init_findManifest env w img)
               (fun r => EFindManifest img (err_of r));
      match r with
      | Err e => log LError "Failed to find manifest in image %q: %v" [AStr img; AErr e]
      | Ok manifest =>
          serr ← call (fun w => file_Seek env w img 0%Z 0%nat) (ESeek img 0%Z 0%nat);
          match serr with
          | Some e => log LError "Failed to set up %q: %v" [AStr img; AErr e]
          | None =>
              cerr ← call (fun w => manager_Create env w EmptyString manifest img)
                          (EManagerCreate EmptyString manifest img);
              match cerr with
              | Some e => log LError "Failed to start up %q: %v" [AStr img; AErr e]
              | None => log LInfo "Launched container %s" [AStr (Name manifest)]
              end
          end
      end;;
      emit (EClose img)
  end.

Fixpoint startEach (imgs : list string) : M unit :=
  match imgs with
  | [] => mret tt
  | img :: rest => startInitContainer img;; startEach rest
  end.

Definition startInitContainers (config : kurmaConfig) : M (option error) :=
  startEach (InitContainers config);;
  mret None.

End Runner.
End Init.

(** ** Package [create]: [cmd_create.go] *)

Module Create.

(** *** [findManifest] *)

(** The [for] loop of [findManifest] over the entries [Next] has still
    to deliver. *)
Fixpoint scanEntries (entries : list tarEntry) (stop : option error) : result bytes :=
  match entries with
  | [] =>
      match stop with
      | None => Err (Errorf "failed to locate manifest file" [])
      | Some e => Err e
      end
  | header :: rest =>
      if negb (String.eqb (Go.Clean (hdrName header)) "manifest") then
        scanEntries rest stop
      else
        match payload header with
        | Err e => Err e
        | Ok b => Ok b
        end
  end.

Definition findManifest (r : Reader) : result bytes :=
  match r with
  | BadStream e => Err e
  | TarStream entries stop => scanEntries entries stop
  end.

Section Client.

Variable env : Env.

(** The size of the buffer [io.Copy] reads into. *)
Variable chunkSize : positive.

(** Modelled from the spec: the writer [pb.NewByteStreamWriter] returns,
    which is not in the sources: it wraps the stream as a write-only
    destination correlated with the upload identifier, attached to
    every chunk sent.  One [Write] sends one chunk. *)
Definition byteStreamWrite (uploadId : string) (p : bytes) : M (option error) :=
  call (fun w => stream_Send env w uploadId p) (ESend uploadId p).

(** The loop of [io.Copy] from a file with [rest] still to deliver and
    [stop] the way its reading ends: read up to a buffer, write what was
    read, stop at the first write that fails, at the end of the file,
    which is no error, or at the read that fails, which is the error
    returned.  Reads fill the buffer while bytes are left. *)
Equations? copyFrom (uploadId : string) (stop : option error) (rest : bytes)
  : M (option error) by wf (length rest) lt :=
copyFrom uploadId stop [] := mret stop;
copyFrom uploadId stop (b :: rest') :=
  let buf := take (Pos.to_nat chunkSize) (b :: rest') in
  err ← byteStreamWrite uploadId buf;
  match err with
  | Some e => mret (Some e)
  | None => copyFrom uploadId stop (drop (Pos.to_nat chunkSize) (b :: rest'))
  end.
Proof.
  rewrite length_drop. simpl. lia.
Qed.

(** *** [create], on the one argument [cliCreate] lets through *)
Definition create (arg : string) : M (option error) :=
  r ← call (fun w => os_Open env w arg) (EOpen arg);
  match r with
  | Err e => mret (Some e)
  | Ok f =>
      res ←
        match findManifest (archive f) with
        | Err e => mret (Some e)
        | Ok manifest =>
            serr ← call (fun w => file_Seek env w arg 0%Z 0%nat) (ESeek arg 0%Z 0%nat);
            match serr with
            | Some e => mret (Some e)
            | None =>
                cr ← call (fun w => client_Create env w manifest)
                          (EClientCreate manifest);
                match cr with
                | Err e => mret (Some e)
                | Ok resp =>
                    uerr ← call (fun w => client_UploadImage env w) EUploadImage;
                    match uerr with
                    | Some e => mret (Some e)
                    | None =>
                        werr ← copyFrom (ImageUploadId resp) (readError f) (contents f);
                        match werr with
                        | Some e => mret (Some (Errorf "write error: %v" [AErr e]))
                        | None =>
                            aerr ← call (fun w => stream_CloseAndRecv env w) ECloseAndRecv;
                            mret aerr
                        end
                    end
                end
            end
        end;
      emit (EClose arg);;
      mret res
  end.

End Client.
End Create.

(** ** A concrete outside, for examples

    A machine on which exactly the listed requests fail (with [EIO]),
    with the given links, mount table and image file; patterns and
    addresses are read by the models of module [Go].  As on Linux, a
    write to a file that is not open for writing is refused with
    [EBADF], and as [netlink] does, the machine refuses a route without
    gateway (the source sets neither destination nor source). *)

Inductive request : Type :=
| RLstat
| RMountPoints
| RMount (location : string)
| ROpenFile (path : string)
| RWrite (path : string)
| RRemoveAll (path : string)
| RSethostname
| RLinkList
| RConfigureInterface (linkName : string)
| RRouteAdd
| RRetrieveImage (img : string)
| RFindManifest (img : string)
| RSeek (img : string)
| RManagerCreate (img : string)
| ROpen
| RClientCreate
| RUploadImage
| RSend
| RCloseAndRecv.

Definition request_eqb (a b : request) : bool :=
  match a, b with
  | RLstat, RLstat | RMountPoints, RMountPoints | RSethostname, RSethostname
  | RLinkList, RLinkList | RRouteAdd, RRouteAdd | ROpen, ROpen
  | RClientCreate, RClientCreate | RUploadImage, RUploadImage
  | RSend, RSend | RCloseAndRecv, RCloseAndRecv => true
  | RMount x, RMount y | ROpenFile x, ROpenFile y | RWrite x, RWrite y
  | RRemoveAll x, RRemoveAll y | RConfigureInterface x, RConfigureInterface y
  | RRetrieveImage x, RRetrieveImage y | RFindManifest x, RFindManifest y
  | RSeek x, RSeek y | RManagerCreate x, RManagerCreate y => String.eqb x y
  | _, _ => false
  end.

Definition EIO : error := Errno "EIO".

Definition answer (faults : list request) (r : request) : option error :=
  if existsb (request_eqb r) faults then Some EIO else None.

Definition answer_with {A} (faults : list request) (r : request) (a : A) : result A :=
  match answer faults r with
  | Some e => Err e
  | None => Ok a
  end.

Definition EBADF : error := Errno "EBADF".

Definition ErrNoGateway : error := Errno "one of Dst.IP, Src, or Gw must not be nil".

(** Whether the history leaves [path] open for writing: its last
    [OpenFile] that succeeded asked for [O_WRONLY] or [O_RDWR], the two
    low bits of the flags, and it was not closed since. *)
Definition writable (w : World) (path : string) : bool :=
  fold_left (fun opened ev =>
               match ev with
               | EOpenFile p flag _ None =>
                   if String.eqb p path then negb (N.land flag 3 =? 0)%N else opened
               | EClose p => if String.eqb p path then false else opened
               | _ => opened
               end) w false.

Definition machine (faults : list request) (links : list Link)
           (mounted : gmap string MountPoint) (image : File) : Env :=
  {| os_Lstat := fun _ _ => answer faults RLstat;
     proc_MountPoints := fun _ => answer_with faults RMountPoints mounted;
     syscall_Mount := fun _ _ location _ _ => answer faults (RMount location);
     os_OpenFile := fun _ path _ _ => answer faults (ROpenFile path);
     file_Write := fun w path _ =>
       if writable w path then answer faults (RWrite path) else Some EBADF;
     os_RemoveAll := fun _ path => answer faults (RRemoveAll path);
     syscall_Sethostname := fun _ _ => answer faults RSethostname;
     netlink_LinkList := fun _ => answer_with faults RLinkList links;
     init_configureInterface := fun _ link _ =>
       answer faults (RConfigureInterface (LinkName link));
     regexp_MatchString := Go.MatchString;
     net_ParseIP := Go.ParseIP;
     netlink_RouteAdd := fun _ route =>
       match Gw route with
       | None => Some ErrNoGateway
       | Some _ => answer faults RRouteAdd
       end;
     remote_RetrieveImage := fun _ img => answer faults (RRetrieveImage img);
     init_findManifest := fun _ img =>
       answer_with faults (RFindManifest img) {| Name := img |};
     file_Seek := fun _ img _ _ => answer faults (RSeek img);
     manager_Create := fun _ _ _ img => answer faults (RManagerCreate img);
     os_Open := fun _ _ => answer_with faults ROpen image;
     client_Create := fun _ _ =>
       answer_with faults RClientCreate {| ImageUploadId := "upload-1" |};
     client_UploadImage := fun _ => answer faults RUploadImage;
     stream_Send := fun _ _ _ => answer faults RSend;
     stream_CloseAndRecv := fun _ => answer faults RCloseAndRecv |}.

Definition noImage : File :=
  {| contents := []; readError := None; archive := TarStream [] None |}.

(** A machine on which no request is made to fail. *)
Definition calm : Env := machine [] [] ∅ noImage.

(** The mount table of a boot nested in a running system, and a machine
    that finds it and on which mounting [/sys] fails. *)
Definition devAndProc : gmap string MountPoint :=
  {[ "/dev" := {| Dev := "devtmpfs"; Path := "/dev"; Fstype := "devtmpfs"; Options := "rw" |};
     "/proc" := {| Dev := "proc"; Path := "/proc"; Fstype := "proc"; Options := "rw" |} ]}.

Definition nestedBoot : Env := machine [RMount "/sys"] [] devAndProc noImage.

(** A machine on which the memory hierarchy file cannot be written. *)
Definition brokenHierarchy : Env :=
  machine [RWrite "/sys/fs/cgroup/memory/memory.use_hierarchy"] [] ∅ noImage.

(** A machine that refuses to set the hostname, and two configurations. *)
Definition strictHostname : Env := machine [RSethostname] [] ∅ noImage.

Definition host1 : kurmaConfig :=
  {| Hostname := "host1"; NetworkConfig := None; InitContainers := [] |}.

Definition unnamed : kurmaConfig :=
  {| Hostname := EmptyString; NetworkConfig := None; InitContainers := [] |}.

(** Two images, the first without a readable manifest. *)
Definition firstImageBroken : Env := machine [RFindManifest "a.aci"] [] ∅ noImage.

Definition twoImages : kurmaConfig :=
  {| Hostname := "host1"; NetworkConfig := None; InitContainers := ["a.aci"; "b.aci"] |}.

(** Entries of a network configuration. *)
Definition onEth1 : kurmaNetworkInterface :=
  {| Device := "eth1"; DHCP := true; Address := EmptyString |}.
Definition onEth0 : kurmaNetworkInterface :=
  {| Device := "eth0"; DHCP := false; Address := "10.0.0.2/24" |}.
Definition onAnyEth : kurmaNetworkInterface :=
  {| Device := "eth.*"; DHCP := true; Address := EmptyString |}.

(** A machine on which no route can be installed, a configuration with a
    gateway and name servers, and one whose gateway is not an address. *)
Definition routeDown : Env := machine [RRouteAdd] [] ∅ noImage.

Definition gatewayAndDns : kurmaConfig :=
  {| Hostname := "host1";
     NetworkConfig :=
       Some {| Interfaces := []; Gateway := "10.0.0.1"; DNS := ["8.8.8.8"; "8.8.4.4"] |};
     InitContainers := [] |}.

Definition badGateway : kurmaConfig :=
  {| Hostname := "host1";
     NetworkConfig :=
       Some {| Interfaces := []; Gateway := "not-an-ip"; DNS := ["8.8.8.8"] |};
     InitContainers := [] |}.

(** An image with a file before its manifest, and an archive with two
    entries named [manifest]. *)
Definition braces : bytes := [Byte.x7b; Byte.x7d].

Definition smallImage : Reader :=
  TarStream [ {| hdrName := "rootfs/bin/sh"; payload := Ok [Byte.x7f] |};
              {| hdrName := "./manifest"; payload := Ok braces |} ] None.

Definition twoManifests : list tarEntry :=
  [ {| hdrName := "manifest"; payload := Ok [Byte.x41] |};
    {| hdrName := "manifest"; payload := Ok [Byte.x42] |} ].

(** A five-byte image file, and a machine that serves it. *)
Definition fiveBytes : File :=
  {| contents := [Byte.x01; Byte.x02; Byte.x03; Byte.x04; Byte.x05];
     readError := None;
     archive := smallImage |}.

Definition registry : Env := machine [] [] ∅ fiveBytes.





(** ** What a trace shows *)

(** The mount calls of a trace, in order: source, location, fstype,
    options and the answer. *)
Definition mountsIn (evs : list event)
  : list (string * string * string * string * option error) :=
  omap (fun ev => match ev with
                  | EMount s l f d r => Some (s, l, f, d, r)
                  | _ => None
                  end) evs.

(** The mount call the orchestrator makes for an entry of its list, and
    its answer. *)
Definition mountCall (res : option error) (m : string * string * string)
  : string * string * string * string * option error :=
  let '(location, source, fstype) := m in
  (source, location, fstype, EmptyString, res).

(** The entries of a mount list that are not in the mount table. *)
Definition pending (existingMounts : gmap string MountPoint)
           (mounts : list (string * string * string))
  : list (string * string * string) :=
  filter (fun m => existingMounts !! m.1.1 = None) mounts.

(** The targets of the mount calls of a trace, in order. *)
Definition targetsMounted (evs : list event) : list string :=
  omap (fun ev => match ev with
                  | EMount _ l _ _ _ => Some l
                  | _ => None
                  end) evs.

(** The line logged for an entry that is already mounted. *)
Definition skipLine (m : string * string * string) : event :=
  ELog LTrace "- skipping %q, already mounted" [AStr m.1.1].



(** The interface configurations a trace shows being applied, in order. *)
Definition applied (evs : list event) : list (Link * kurmaNetworkInterface) :=
  omap (fun ev => match ev with
                  | EConfigureInterface link netconf _ => Some (link, netconf)
                  | _ => None
                  end) evs.

(** The first entry whose device is exactly the link name, if any. *)
Definition firstExact (linkName : string) (interfaces : list kurmaNetworkInterface)
  : option kurmaNetworkInterface :=
  List.find (fun n => String.eqb linkName (Device n)) interfaces.


(** The acknowledgments a trace shows being awaited. *)
Definition acks (evs : list event) : list (option error) :=
  omap (fun ev => match ev with
                  | ECloseAndRecv r => Some r
                  | _ => None
                  end) evs.

(** [n / c] rounded up. *)
Definition ceilDiv (n c : nat) : nat := (n + c - 1) / c.

(** The [i]-th run of [c] bytes of [data], and all of them. *)
Definition chunkAt (c : nat) (data : bytes) (i : nat) : bytes :=
  take c (drop (i * c) data).

Definition chunks (c : nat) (data : bytes) : list bytes :=
  chunkAt c data <$> seq 0 (ceilDiv (length data) c).

(** Events on a file, and route installs. *)
Definition touchesFile (ev : event) : bool :=
  match ev with
  | ERemoveAll _ _ | EOpenFile _ _ _ _ | EWrite _ _ _ | EClose _ => true
  | _ => false
  end.

Definition isRouteAdd (ev : event) : bool :=
  match ev with
  | ERouteAdd _ _ => true
  | _ => false
  end.

(** ** The rest of the sources

    The steps of [bootstrap.go] that the properties above do not reach,
    and the [list] command of [cmd_list.go].  They talk to other parts of
    the outside, so they have a trace of their own. *)

(** [net.Interface], by the fields printed here. *)
Record NetInterface : Type := { ifIndex : nat; ifName : string }.

(** [pb.Container] as [List] answers it, [schema.RuntimeApp] and
    [schema.ContainerRuntimeManifest], by the fields the source reads. *)
Record Container : Type := { Uuid : string; Manifest : bytes; State : N }.

Record RuntimeApp : Type := { AppName : string }.

Record ContainerRuntimeManifest : Type := { Apps : list RuntimeApp }.

(** [container.Options], as [launchManager] fills it. *)
Record ManagerOptions : Type :=
  { ParentCgroupName : string; ContainerDirectory : string }.

(** The container manager [container.NewManager] returns, by the options
    it was made with. *)
Record Manager : Type := { managerOptions : ManagerOptions }.

(** The [Paths] of the configuration; the field of [kurmaConfig] holds a
    pointer to it, which may be nil. *)
Record kurmaPathConfiguration : Type := { Containers : string }.

(** What [fmt.Printf] is given to print. *)
Inductive printed : Type :=
| PTable (headers : list string) (rows : list (list string))   (* a rendered table *)
| PInterface (i : NetInterface)
| PAddr (a : string).

(** What these steps do to the outside, with the answer they got. *)
Inductive action : Type :=
| ALog (lvl : level) (format : string) (args : list fmtarg)
| AExec (path : string) (args : list string) (res : option error)
| AOpen (path : string) (res : option error)
| ADecode (path : string) (res : result (option kurmaConfig))
| ACloseFile (path : string)
| ASetenv (key val : string)
| AMkdirAll (path : string) (perm : N) (res : option error)
| ANewManager (opts : ManagerOptions) (res : result Manager)
| AChdir (path : string)
| ARemount (source target fstype : string) (flags : N) (data : string)
           (res : option error)
| ADial (target : string) (res : option error)
| AConnClose
| AList (res : result (list Container))
| APrintf (format : string) (args : list printed)
| AInterfaces (res : result (list NetInterface))
| AAddrs (i : NetInterface) (res : result (list string)).

(** The outside of these steps.  [mergeConfig] is the method of
    [kurmaConfig] that is not in the sources; it is given the decoded
    configuration, which is nil for a document that holds [null].
    [json.Unmarshal] and the [String] method of a container state do not
    depend on the history. *)
Record Host : Type := {
  exec_Run : list action -> string -> list string -> option error;
  os_OpenPath : list action -> string -> option error;
  json_Decode : list action -> string -> result (option kurmaConfig);
  mergeConfig : kurmaConfig -> option kurmaConfig -> kurmaConfig;
  os_MkdirAll : list action -> string -> N -> option error;
  container_NewManager : list action -> ManagerOptions -> result Manager;
  syscall_Remount : list action -> string -> string -> string -> N -> string -> option error;
  grpc_Dial : list action -> string -> option error;
  kurma_List : list action -> result (list Container);
  json_Unmarshal : bytes -> result (option ContainerRuntimeManifest);
  state_String : N -> string;
  net_Interfaces : list action -> result (list NetInterface);
  iface_Addrs : list action -> NetInterface -> result (list string)
}.

(** A step over this outside: it reads the history and returns its value
    with the actions it added. *)
Definition X (A : Type) : Type := list action -> A * list action.

#[global] Instance X_ret : MRet X := fun A a _ => (a, []).

#[global] Instance X_bind : MBind X := fun A B f m w =>
  let '(a, acts1) := m w in
  let '(b, acts2) := f a (w ++ acts1) in
  (b, acts1 ++ acts2).

Definition ask {R : Type} (oracle : list action -> R) (act : R -> action) : X R :=
  fun w => let r := oracle w in (r, [act r]).

Definition act (a : action) : X unit := fun _ => (tt, [a]).

Definition returned {A} (m : X A) (w : list action) : A := fst (m w).
Definition actions {A} (m : X A) (w : list action) : list action := snd (m w).

(** How a call ends: it returns its error, or it panics. *)
Inductive outcome : Type :=
| Returns (err : option error)
| Panics.

(** [strings.Join(elems, sep)]. *)
Fixpoint joinWith (sep : string) (elems : list string) : string :=
  match elems with
  | [] => EmptyString
  | [e] => e
  | e :: rest => e +:+ sep +:+ joinWith sep rest
  end.

(** The tabulator of the lines [displayNetwork] prints. *)
Definition TAB : string := String "009"%char EmptyString.

(** [syscall.MS_RDONLY] and [syscall.MS_REMOUNT]. *)
Definition MS_RDONLY : N := 1.
Definition MS_REMOUNT : N := 32.

Module Boot.
Section Runner.

Variable host : Host.

(** The constant of the package declared outside the sources. *)
Variable configurationFile : string.

(** *** [loadConfigurationFile]: the error and the configuration of the
    runner afterwards *)
Definition loadConfigurationFile (config : kurmaConfig) : X (option error * kurmaConfig) :=
  err ← ask (fun w => os_OpenPath host w configurationFile) (AOpen configurationFile);
  match err with
  | Some e =>
      if IsNotExist err then mret (None, config) else mret (Some e, config)
  | None =>
      d ← ask (fun w => json_Decode host w configurationFile)
              (ADecode configurationFile);
      act (ACloseFile configurationFile);;
      match d with
      | Err e => mret (Some e, config)
      | Ok diskConfig => mret (None, mergeConfig host config diskConfig)
      end
  end.

(** *** [configureEnvironment] *)
Definition configureEnvironment : X (option error) :=
  act (ASetenv "TMPDIR" "/tmp");;
  mret None.

(** *** [loadModules], on the [Modules] of the configuration *)
Fixpoint probeEach (modules : list string) : X unit :=
  match modules with
  | [] => mret tt
  | name :: rest =>
      err ← ask (fun w => exec_Run host w "/sbin/modprobe" [name])
                (AExec "/sbin/modprobe" [name]);
      match err with
      | Some _ => act (ALog LError "- Failed to load module: %s" [AStr name])
      | None => mret tt
      end;;
      probeEach rest
  end.

Definition loadModules (modules : list string) : X (option error) :=
  if (length modules =? 0)%nat then mret None
  else
    act (ALog LInfo "Loading specified modules [%s]" [AStr (joinWith ", " modules)]);;
    probeEach modules;;
    mret None.

(** *** [createDirectories], on the [Paths] of the configuration *)
Definition createDirectories (paths : option kurmaPathConfiguration) : X (option error) :=
  match paths with
  | None => mret None
  | Some p =>
      if negb (String.eqb (Containers p) EmptyString) then
        err ← ask (fun w => os_MkdirAll host w (Containers p) 493%N)
                  (AMkdirAll (Containers p) 493%N);
        match err with
        | Some e => mret (Some e)
        | None => mret None
        end
      else mret None
  end.

(** *** [readonly] *)
Definition readonly : X (option error) :=
  ask (fun w => syscall_Remount host w EmptyString "/" EmptyString
                                (N.lor MS_REMOUNT MS_RDONLY) EmptyString)
      (ARemount EmptyString "/" EmptyString (N.lor MS_REMOUNT MS_RDONLY) EmptyString).

(** *** [displayNetwork] *)
Fixpoint printAddrs (ad : list string) : X unit :=
  match ad with
  | [] => mret tt
  | a :: rest =>
      act (APrintf (TAB +:+ TAB +:+ "addr: %v" +:+ LF) [PAddr a]);;
      printAddrs rest
  end.

Fixpoint printInterfaces (interfaces : list NetInterface) : X (option error) :=
  match interfaces with
  | [] => mret None
  | i :: rest =>
      act (APrintf (TAB +:+ "%#v" +:+ LF) [PInterface i]);;
      r ← ask (fun w => iface_Addrs host w i) (AAddrs i);
      match r with
      | Err e => mret (Some e)
      | Ok ad => printAddrs ad;; printInterfaces rest
      end
  end.

Definition displayNetwork : X (option error) :=
  act (APrintf ("INTERFACES:" +:+ LF) []);;
  r ← ask (fun w => net_Interfaces host w) AInterfaces;
  match r with
  | Err e => mret (Some e)
  | Ok interfaces => printInterfaces interfaces
  end.

(** *** [launchManager]: how it ends and the manager of the runner
    afterwards.  Reading [Containers] through a nil [Paths] panics. *)
Definition launchManager (parentCgroupName : string)
           (paths : option kurmaPathConfiguration) (manager : option Manager)
  : X (outcome * option Manager) :=
  match paths with
  | None => mret (Panics, manager)
  | Some p =>
      let mopts := {| ParentCgroupName := parentCgroupName;
                      ContainerDirectory := Containers p |} in
      r ← ask (fun w => container_NewManager host w mopts)
              (ANewManager mopts);
      match r with
      | Err e => mret (Returns (Some e), manager)
      | Ok m =>
          act (ALog LTrace "Container Manager has been initialized." []);;
          act (AChdir "/var/kurma");;
          mret (Returns None, Some m)
      end
  end.

End Runner.
End Boot.

(** ** Package [list]: [cmd_list.go] *)

Module ListCmd.
Section Client.

Variable host : Host.

(** The name of the first app of a manifest, empty when it has none. *)
Definition firstAppName (manifest : ContainerRuntimeManifest) : string :=
  match Apps manifest with
  | [] => EmptyString
  | app :: _ => AppName app
  end.

(** How the loop over the containers ends: with the rows added to the
    table, with an error, or in a panic. *)
Inductive filled : Type :=
| Rows (rows : list (list string))
| Failed (e : error)
| Crashed.

(** The loop of [list] over the containers that are left, [rows] being
    the rows of the table so far.  A manifest that decodes to nil makes
    the reading of its apps panic. *)
Fixpoint addRows (containers : list Container) (rows : list (list string)) : filled :=
  match containers with
  | [] => Rows rows
  | container :: rest =>
      match json_Unmarshal host (Manifest container) with
      | Err e => Failed e
      | Ok None => Crashed
      | Ok (Some manifest) =>
          addRows rest
                  (rows ++ [[Uuid container; firstAppName manifest;
                             state_String host (State container)]])
      end
  end.

(** [list]; the deferred [Close] of the connection runs on every way out
    once it is dialed, a panic included. *)
Definition list : X outcome :=
  err ← ask (fun w => grpc_Dial host w "localhost:12311") (ADial "localhost:12311");
  match err with
  | Some e => mret (Returns (Some e))
  | None =>
      out ←
        (r ← ask (fun w => kurma_List host w) AList;
         match r with
         | Err e => mret (Returns (Some e))
         | Ok containers =>
             match addRows containers [] with
             | Failed e => mret (Returns (Some e))
             | Crashed => mret Panics
             | Rows rows =>
                 act (APrintf "%s" [PTable ["UUID"; "Name"; "State"] rows]);;
                 mret (Returns None)
             end
         end);
      act AConnClose;;
      mret out
  end.

End Client.
End ListCmd.


(** What the loop of [configureNetwork] leaves in the trace for one
    link: the line that takes it up, and then either the warning that no
    entry matches it, or the configuration of the interface by the entry
    found, with its answer, followed by the warning that carries the
    error when it failed. *)
Definition linkRecord (found : option kurmaNetworkInterface) (link : Link)
           (res : option error) : list event :=
  ELog LInfo "Configuring %s..." [AStr (LinkName link)]
  :: match found with
     | None => [ELog LWarn "- no matching network configuraton found" []]
     | Some netconf =>
         EConfigureInterface link netconf res
         :: match res with
            | Some e => [ELog LWarn "- %s" [AErr e]]
            | None => []
            end
     end.

(** The line written to the resolver file for a name server, and the
    write of it with its answer. *)
Definition nameserverLine (ns : string) : string := "nameserver " +:+ ns +:+ LF.

Definition resolverWrite (res : option error) (ns : string) : event :=
  EWrite Init.resolvConf (nameserverLine ns) res.

(** The routes a trace shows being installed, in order. *)
Definition routesIn (evs : list event) : list Route :=
  omap (fun ev => match ev with
                  | ERouteAdd route _ => Some route
                  | _ => None
                  end) evs.

(** An outside that, as Linux does, refuses every write to a file that
    the history does not leave open for writing. *)
Definition refusesUnwritable (env : Env) : Prop :=
  forall (w : World) path data,
    writable w path = false -> file_Write env w path data <> None.

(** Events that neither write a line nor open a file for writing. *)
Definition writesNothing (ev : event) : bool :=
  match ev with
  | EWrite _ _ None => false
  | EOpenFile _ flag _ _ => (N.land flag 3 =? 0)%N
  | _ => true
  end.

(** Two links, a configuration that knows only the first, and a machine on
    which configuring the first fails. *)
Definition twoLinks : list Link :=
  [ {| LinkIndex := 1; LinkName := "eth0" |}; {| LinkIndex := 2; LinkName := "wlan0" |} ].

Definition eth0Only : kurmaNetworkConfig :=
  {| Interfaces := [onEth0]; Gateway := EmptyString; DNS := [] |}.

Definition flakyEth0 : Env := machine [RConfigureInterface "eth0"] twoLinks ∅ noImage.

(** Two name servers, and a machine on which the links cannot be
    listed. *)
Definition twoServers : kurmaNetworkConfig :=
  {| Interfaces := []; Gateway := EmptyString; DNS := ["8.8.8.8"; "8.8.4.4"] |}.

Definition dnsOnly : kurmaConfig :=
  {| Hostname := "host1"; NetworkConfig := Some twoServers; InitContainers := [] |}.

(** A machine on which the resolver file cannot be removed. *)
Definition stickyEtc : Env := machine [RRemoveAll "/etc/resolv.conf"] [] ∅ noImage.

Definition noNetlink : Env := machine [RLinkList] [] ∅ noImage.

(** The mount call [mountCgroups] makes for a controller, and its answer. *)
Definition cgroupCall (cgroupsMount : string) (res : option error) (cgrouptype : string)
  : string * string * string * string * option error :=
  ("none", Go.Join cgroupsMount cgrouptype, "cgroup", cgrouptype, res).

(** Log lines and mount calls. *)
Definition isLogOrMount (ev : event) : bool :=
  match ev with
  | ELog _ _ _ | EMount _ _ _ _ _ => true
  | _ => false
  end.

(** A machine with another answer to the examination of the mount table;
    a fresh boot, on which the table does not exist; a machine on which
    the table cannot be examined and one on which it cannot be read. *)
Definition withLstat (res : option error) (env : Env) : Env :=
  {| os_Lstat := fun _ _ => res;
     proc_MountPoints := proc_MountPoints env;
     syscall_Mount := syscall_Mount env;
     os_OpenFile := os_OpenFile env;
     file_Write := file_Write env;
     os_RemoveAll := os_RemoveAll env;
     syscall_Sethostname := syscall_Sethostname env;
     netlink_LinkList := netlink_LinkList env;
     init_configureInterface := init_configureInterface env;
     regexp_MatchString := regexp_MatchString env;
     net_ParseIP := net_ParseIP env;
     netlink_RouteAdd := netlink_RouteAdd env;
     remote_RetrieveImage := remote_RetrieveImage env;
     init_findManifest := init_findManifest env;
     file_Seek := file_Seek env;
     manager_Create := manager_Create env;
     os_Open := os_Open env;
     client_Create := client_Create env;
     client_UploadImage := client_UploadImage env;
     stream_Send := stream_Send env;
     stream_CloseAndRecv := stream_CloseAndRecv env |}.

Definition freshBoot : Env := withLstat (Some ErrNotExist) calm.

(** The mount table [createSystemMounts] gets when it starts after
    history [w], if it gets one: the empty table when the outside says
    that the table file does not exist, and what [proc.MountPoints]
    answers when the file is there. *)
Definition tableSeen (env : Env) (MountProcFile : string) (w : World)
  : option (gmap string MountPoint) :=
  let w1 := w ++ [ELog LInfo "Creating system mounts" []] in
  match os_Lstat env w1 MountProcFile with
  | Some e => if IsNotExist (Some e) then Some ∅ else None
  | None =>
      match proc_MountPoints env (w1 ++ [ELstat MountProcFile None]) with
      | Ok existingMounts => Some existingMounts
      | Err _ => None
      end
  end.

Definition noProcAccess : Env := machine [RLstat] [] ∅ noImage.

Definition garbledMounts : Env := machine [RMountPoints] [] ∅ noImage.

(** The files a trace shows being closed, and the images it shows
    retrieved, in order. *)
Definition closes (evs : list event) : list string :=
  omap (fun ev => match ev with
                  | EClose path => Some path
                  | _ => None
                  end) evs.


(** An unreadable manifest entry before a readable one, and a stream that
    breaks off. *)
Definition damagedManifest : tarEntry :=
  {| hdrName := "manifest"; payload := Err EIO |}.

Definition shellEntry : tarEntry :=
  {| hdrName := "rootfs/bin/sh"; payload := Ok [Byte.x7f] |}.

Definition manifestEntry : tarEntry :=
  {| hdrName := "./manifest"; payload := Ok braces |}.

(** The error an event shows, if it shows one. *)
Definition failure (ev : event) : option error :=
  match ev with
  | ELog _ _ _ | EClose _ => None
  | ELstat _ r | EMountPoints r | EMount _ _ _ _ r | EOpenFile _ _ _ r
  | EWrite _ _ r | ERemoveAll _ r | ESethostname _ r | ELinkList r
  | EConfigureInterface _ _ r | ERouteAdd _ r | ERetrieveImage _ r
  | EFindManifest _ r | ESeek _ _ _ r | EManagerCreate _ _ _ r
  | EUploadImage r | ESend _ _ r | ECloseAndRecv r => r
  | EOpen _ r => err_of r
  | EClientCreate _ r => err_of r
  end.

(** A chunk sent under an identifier and accepted. *)
Definition accepted (uploadId : string) (chunk : bytes) : event :=
  ESend uploadId chunk None.

(** The ways [create] runs with a buffer of [c] bytes: what it returns and
    what it did, by the first step that fails. *)
Inductive createRun (c : nat) (arg : string) : option error -> list event -> Prop :=
| run_not_opened e :
    createRun c arg (Some e) [EOpen arg (Err e)]
| run_no_manifest f e :
    Create.findManifest (archive f) = Err e ->
    createRun c arg (Some e) [EOpen arg (Ok f); EClose arg]
| run_not_rewound f manifest e :
    Create.findManifest (archive f) = Ok manifest ->
    createRun c arg (Some e)
      [EOpen arg (Ok f); ESeek arg 0%Z 0%nat (Some e); EClose arg]
| run_not_created f manifest e :
    Create.findManifest (archive f) = Ok manifest ->
    createRun c arg (Some e)
      [ EOpen arg (Ok f); ESeek arg 0%Z 0%nat None;
        EClientCreate manifest (Err e); EClose arg ]
| run_no_stream f manifest resp e :
    Create.findManifest (archive f) = Ok manifest ->
    createRun c arg (Some e)
      [ EOpen arg (Ok f); ESeek arg 0%Z 0%nat None;
        EClientCreate manifest (Ok resp); EUploadImage (Some e); EClose arg ]
| run_write_failed f manifest resp k chunk e :
    Create.findManifest (archive f) = Ok manifest ->
    chunks c (contents f) !! k = Some chunk ->
    createRun c arg (Some (Errorf "write error: %v" [AErr e]))
      ([ EOpen arg (Ok f); ESeek arg 0%Z 0%nat None;
         EClientCreate manifest (Ok resp); EUploadImage None ]
       ++ (accepted (ImageUploadId resp) <$> take k (chunks c (contents f)))
       ++ [ESend (ImageUploadId resp) chunk (Some e); EClose arg])
| run_read_failed f manifest resp e :
    Create.findManifest (archive f) = Ok manifest ->
    readError f = Some e ->
    createRun c arg (Some (Errorf "write error: %v" [AErr e]))
      ([ EOpen arg (Ok f); ESeek arg 0%Z 0%nat None;
         EClientCreate manifest (Ok resp); EUploadImage None ]
       ++ (accepted (ImageUploadId resp) <$> chunks c (contents f))
       ++ [EClose arg])
| run_sent f manifest resp r :
    Create.findManifest (archive f) = Ok manifest ->
    readError f = None ->
    createRun c arg r
      ([ EOpen arg (Ok f); ESeek arg 0%Z 0%nat None;
         EClientCreate manifest (Ok resp); EUploadImage None ]
       ++ (accepted (ImageUploadId resp) <$> chunks c (contents f))
       ++ [ECloseAndRecv r; EClose arg]).

(** A machine with a five-byte image on which sending fails, and one on
    which the image cannot be opened. *)
Definition deafRegistry : Env := machine [RSend] [] ∅ fiveBytes.

Definition noSuchImage : Env := machine [ROpen] [] ∅ fiveBytes.

(** The commands a trace of actions shows being run, in order. *)
Definition execs (acts : list action) : list (string * list string) :=
  omap (fun a => match a with
                 | AExec path args _ => Some (path, args)
                 | _ => None
                 end) acts.

(** What [displayNetwork] leaves in the trace for one interface: its
    line, the request for its addresses with the answer, and then a line
    for every address answered. *)
Definition interfaceRecord (i : NetInterface) (res : result (list string))
  : list action :=
  APrintf (TAB +:+ "%#v" +:+ LF) [PInterface i]
  :: AAddrs i res
  :: match res with
     | Ok ad => (fun a => APrintf (TAB +:+ TAB +:+ "addr: %v" +:+ LF) [PAddr a]) <$> ad
     | Err _ => []
     end.

(** Printing. *)
Definition isPrintf (a : action) : bool :=
  match a with
  | APrintf _ _ => true
  | _ => false
  end.

(** How often a trace closes the connection. *)
Definition connCloses (acts : list action) : nat :=
  length (omap (fun a => match a with
                         | AConnClose => Some tt
                         | _ => None
                         end) acts).

(** A host on which exactly the listed commands and calls fail (with
    [EIO]), with the given interfaces, each with the given addresses, and
    the given containers; a manifest decodes to a single app named by its
    bytes, the manifest [null] to nil, and a manifest of no byte not at
    all. *)
Inductive hostRequest : Type :=
| HExec (arg : string)
| HOpen
| HDecode
| HMkdirAll
| HNewManager
| HRemount
| HDial
| HList
| HInterfaces
| HAddrs (name : string).

Definition hostRequest_eqb (a b : hostRequest) : bool :=
  match a, b with
  | HOpen, HOpen | HDecode, HDecode | HMkdirAll, HMkdirAll
  | HNewManager, HNewManager | HRemount, HRemount | HDial, HDial
  | HList, HList | HInterfaces, HInterfaces => true
  | HExec x, HExec y | HAddrs x, HAddrs y => String.eqb x y
  | _, _ => false
  end.

Definition reply (faults : list hostRequest) (r : hostRequest) : option error :=
  if existsb (hostRequest_eqb r) faults then Some EIO else None.

Definition reply_with {A} (faults : list hostRequest) (r : hostRequest) (a : A) : result A :=
  match reply faults r with
  | Some e => Err e
  | None => Ok a
  end.

Definition decodeManifest (b : bytes) : result (option ContainerRuntimeManifest) :=
  match b with
  | [] => Err (Errno "unexpected end of JSON input")
  | [Byte.x6e; Byte.x75; Byte.x6c; Byte.x6c] => Ok None
  | _ => Ok (Some {| Apps := [{| AppName := String.string_of_list_byte b |}] |})
  end.

Definition stateName (s : N) : string :=
  match s with
  | 0%N => "NEW"
  | 1%N => "STARTING"
  | 2%N => "RUNNING"
  | _ => "STOPPED"
  end.

Definition hostWith (faults : list hostRequest) (disk : option kurmaConfig)
           (interfaces : list NetInterface) (addrs : list string)
           (containers : list Container) : Host :=
  {| exec_Run := fun _ _ args => reply faults (HExec (joinWith " " args));
     os_OpenPath := fun _ _ => reply faults HOpen;
     json_Decode := fun _ _ => reply_with faults HDecode disk;
     mergeConfig := fun config disk => default config disk;
     os_MkdirAll := fun _ _ _ => reply faults HMkdirAll;
     container_NewManager := fun _ opts =>
       reply_with faults HNewManager {| managerOptions := opts |};
     syscall_Remount := fun _ _ _ _ _ _ => reply faults HRemount;
     grpc_Dial := fun _ _ => reply faults HDial;
     kurma_List := fun _ => reply_with faults HList containers;
     json_Unmarshal := decodeManifest;
     state_String := stateName;
     net_Interfaces := fun _ => reply_with faults HInterfaces interfaces;
     iface_Addrs := fun _ i => reply_with faults (HAddrs (ifName i)) addrs |}.

Definition webContainer : Container :=
  {| Uuid := "a1"; Manifest := [Byte.x77; Byte.x65; Byte.x62]; State := 2 |}.

Definition dbContainer : Container :=
  {| Uuid := "b2"; Manifest := [Byte.x64; Byte.x62]; State := 0 |}.

Definition nullContainer : Container :=
  {| Uuid := "c3"; Manifest := [Byte.x6e; Byte.x75; Byte.x6c; Byte.x6c]; State := 2 |}.

Definition cutContainer : Container :=
  {| Uuid := "d4"; Manifest := []; State := 1 |}.

Definition loopback : NetInterface := {| ifIndex := 1; ifName := "lo" |}.
Definition wired : NetInterface := {| ifIndex := 2; ifName := "eth0" |}.
Definition spare : NetInterface := {| ifIndex := 3; ifName := "eth1" |}.

Definition twoContainers : Host := hostWith [] None [] [] [webContainer; dbContainer].
Definition nullManifest : Host :=
  hostWith [] None [] [] [webContainer; nullContainer; dbContainer].
Definition cutManifest : Host :=
  hostWith [] None [] [] [webContainer; cutContainer; dbContainer].
Definition wiredUnreadable : Host :=
  hostWith [HAddrs "eth0"] None [loopback; wired; spare] ["127.0.0.1/8"; "::1/128"] [].
Definition noInterfaces : Host := hostWith [HInterfaces] None [] [] [].
Definition quiet : Host := hostWith [] None [] [] [].

(** ** Running steps *)

Lemma run_bind {A B} (m : M A) (f : A -> M B) (w : World) :
  (m ≫= f) w =
  let '(a, evs1) := m w in
  let '(b, evs2) := f a (w ++ evs1) in
  (b, evs1 ++ evs2).
Proof. reflexivity. Qed.

Lemma value_bind {A B} (m : M A) (f : A -> M B) (w : World) :
  value (m ≫= f) w = value (f (value m w)) (w ++ events m w).
Proof.
  unfold value, events. rewrite run_bind.
  destruct (m w) as [a evs1]; simpl.
  destruct (f a (w ++ evs1)); reflexivity.
Qed.

Lemma events_bind {A B} (m : M A) (f : A -> M B) (w : World) :
  events (m ≫= f) w = events m w ++ events (f (value m w)) (w ++ events m w).
Proof.
  unfold value, events. rewrite run_bind.
  destruct (m w) as [a evs1]; simpl.
  destruct (f a (w ++ evs1)); reflexivity.
Qed.

Lemma value_ret {A} (a : A) (w : World) : value (mret a) w = a.
Proof. reflexivity. Qed.

Lemma events_ret {A} (a : A) (w : World) : events (mret a) w = [].
Proof. reflexivity. Qed.

Lemma value_call {R} (oracle : World -> R) (ev : R -> event) (w : World) :
  value (call oracle ev) w = oracle w.
Proof. reflexivity. Qed.

Lemma events_call {R} (oracle : World -> R) (ev : R -> event) (w : World) :
  events (call oracle ev) w = [ev (oracle w)].
Proof. reflexivity. Qed.

Lemma events_log lvl format args (w : World) :
  events (log lvl format args) w = [ELog lvl format args].
Proof. reflexivity. Qed.

Lemma events_emit ev (w : World) : events (emit ev) w = [ev].
Proof. reflexivity. Qed.

Create Rewrite HintDb run.
#[global] Hint Rewrite @value_bind @events_bind @value_ret @events_ret
  @value_call @events_call events_log events_emit : run.

(** Unfold one layer of sequencing in the goal. *)
Ltac run := autorewrite with run; simpl.

(** Take a membership in an explicit list apart. *)
Ltac in_cases H :=
  repeat (apply elem_of_cons in H as [H|H];
          [try discriminate H; try (injection H as ?); subst|]);
  try (apply elem_of_nil in H; destruct H).

(** Find an event in an explicit list. *)
Ltac in_list :=
  repeat (first [apply list_elem_of_here | apply list_elem_of_further]).

(** ** The mount orchestrator *)

Section Mounts.

Variable env : Env.
Variable existingMounts : gmap string MountPoint.

Lemma mountEach_skip location source fstype rest w mp :
  existingMounts !! location = Some mp ->
  value (Init.mountEach env existingMounts ((location, source, fstype) :: rest)) w
  = value (Init.mountEach env existingMounts rest)
          (w ++ [ELog LTrace "- skipping %q, already mounted" [AStr location]])
  /\ events (Init.mountEach env existingMounts ((location, source, fstype) :: rest)) w
  = ELog LTrace "- skipping %q, already mounted" [AStr location]
    :: events (Init.mountEach env existingMounts rest)
              (w ++ [ELog LTrace "- skipping %q, already mounted" [AStr location]]).
Proof.
  intros Hin. simpl. rewrite Hin. run. auto.
Qed.

Lemma mountEach_mount location source fstype rest w :
  existingMounts !! location = None ->
  let line := ELog LTrace "- mounting %q (type %q) to %q"
                   [AStr source; AStr fstype; AStr location] in
  let res := syscall_Mount env (w ++ [line]) source location fstype EmptyString in
  let ev := EMount source location fstype EmptyString res in
  value (Init.mountEach env existingMounts ((location, source, fstype) :: rest)) w
  = match res with
    | Some e => Some (Errorf "failed to mount %q: %v" [AStr location; AErr e])
    | None => value (Init.mountEach env existingMounts rest) (w ++ [line; ev])
    end
  /\ events (Init.mountEach env existingMounts ((location, source, fstype) :: rest)) w
  = line :: ev ::
    match res with
    | Some e => []
    | None => events (Init.mountEach env existingMounts rest) (w ++ [line; ev])
    end.
Proof.
  intros Hout. simpl. rewrite Hout. unfold Init.handleMount. run.
  destruct (syscall_Mount env _ source location fstype EmptyString) as [e|];
    run; rewrite <- ?app_assoc; auto.
Qed.

(** C4.  Whatever the mount list and the mount table, the mounts tried
    are the entries not yet mounted, in the listed order, each with its
    source, target and fstype and no options.  When the step succeeds
    every one of them was tried and succeeded; when it fails, the
    entries before some entry succeeded, that entry failed, nothing
    after it was tried, and the error wraps the failure under the
    failing target. *)
Theorem mounts_in_listed_order_stop_at_first_failure
        (mounts : list (string * string * string)) (w : World) :
  let todo := pending existingMounts mounts in
  let tried := mountsIn (events (Init.mountEach env existingMounts mounts) w) in
  match value (Init.mountEach env existingMounts mounts) w with
  | None => tried = map (mountCall None) todo
  | Some err =>
      exists k location source fstype e,
        todo !! k = Some (location, source, fstype)
        /\ tried = map (mountCall None) (take k todo)
                   ++ [(source, location, fstype, EmptyString, Some e)]
        /\ err = Errorf "failed to mount %q: %v" [AStr location; AErr e]
  end.
Proof.
  revert w. induction mounts as [|[[location source] fstype] rest IH]; intros w.
  - reflexivity.
  - unfold pending. destruct (existingMounts !! location) as [mp|] eqn:Hloc.
    + destruct (mountEach_skip location source fstype rest w mp Hloc) as [-> ->].
      rewrite filter_cons_False by (simpl; rewrite Hloc; discriminate).
      apply IH.
    + destruct (mountEach_mount location source fstype rest w Hloc) as [-> ->].
      rewrite filter_cons_True by exact Hloc.
      destruct (syscall_Mount env _ source location fstype EmptyString) as [e|].
      * exists 0, location, source, fstype, e. auto.
      * specialize (IH (w ++
          [ELog LTrace "- mounting %q (type %q) to %q"
                [AStr source; AStr fstype; AStr location];
           EMount source location fstype EmptyString None])).
        simpl in IH |- *.
        destruct (value (Init.mountEach env existingMounts rest) _) as [err|].
        -- destruct IH as (k & l & s & f & e & Hk & Htried & Herr).
           exists (S k), l, s, f, e. simpl. rewrite Htried. auto.
        -- rewrite IH. reflexivity.
Qed.

(** The targets mounted are some of the pending ones, in their order. *)
Lemma targetsMounted_sublist_pending mounts w :
  targetsMounted (events (Init.mountEach env existingMounts mounts) w)
  `sublist_of` (fun m => m.1.1) <$> pending existingMounts mounts.
Proof.
  revert w. induction mounts as [|[[location source] fstype] rest IH]; intros w.
  - reflexivity.
  - unfold pending. destruct (existingMounts !! location) as [mp|] eqn:Hloc.
    + destruct (mountEach_skip location source fstype rest w mp Hloc) as [_ ->].
      rewrite filter_cons_False by (simpl; rewrite Hloc; discriminate).
      apply IH.
    + destruct (mountEach_mount location source fstype rest w Hloc) as [_ ->].
      rewrite filter_cons_True by exact Hloc.
      simpl. apply sublist_skip.
      destruct (syscall_Mount env _ source location fstype EmptyString).
      * apply sublist_nil_l.
      * apply IH.
Qed.

(** C5.  A target that is in the mount table is the target of no mount
    call.  When every entry of the list is in the table the step makes
    no call at all, logs one skip line per entry and succeeds.  And no
    target is mounted twice, the targets of the list being distinct. *)
Theorem mounted_targets_are_skipped
        (mounts : list (string * string * string)) (w : World) :
  let evs := events (Init.mountEach env existingMounts mounts) w in
  (forall target, is_Some (existingMounts !! target) ->
                  target ∉ targetsMounted evs)
  /\ ((forall m, m ∈ mounts -> is_Some (existingMounts !! m.1.1)) ->
      value (Init.mountEach env existingMounts mounts) w = None
      /\ evs = skipLine <$> mounts)
  /\ (NoDup ((fun m => m.1.1) <$> mounts) -> NoDup (targetsMounted evs)).
Proof.
  simpl. split; [|split].
  - intros target [mp Hmp] Hin.
    eapply elem_of_sublist in Hin; [|apply targetsMounted_sublist_pending].
    apply list_elem_of_fmap in Hin as (m & -> & Hm).
    apply list_elem_of_filter in Hm as [Hnone _]. congruence.
  - revert w. induction mounts as [|[[location source] fstype] rest IH]; intros w Hall.
    + split; reflexivity.
    + destruct (Hall (location, source, fstype)) as [mp Hmp]; [left|].
      destruct (mountEach_skip location source fstype rest w mp Hmp) as [-> ->].
      destruct (IH (w ++ [ELog LTrace "- skipping %q, already mounted" [AStr location]]))
        as [-> ->]; [|split; reflexivity].
      intros m Hm. apply Hall. right. exact Hm.
  - intros Hnodup. eapply sublist_NoDup; [|apply targetsMounted_sublist_pending].
    eapply sublist_NoDup; [exact Hnodup|].
    apply fmap_sublist, sublist_filter.
Qed.

(** The targets of the default mounts are distinct, the cgroup mount not
    being one of the other six. *)
Lemma systemMounts_distinct cgroupsMount :
  cgroupsMount ∉ ["/dev"; "/dev/pts"; "/proc"; "/sys"; "/tmp"; "/var/kurma"] ->
  NoDup ((fun m => m.1.1) <$> Init.systemMounts cgroupsMount).
Proof.
  intros Hother.
  change ((fun m => m.1.1) <$> Init.systemMounts cgroupsMount)
    with (["/dev"; "/dev/pts"; "/proc"; "/sys"; "/tmp"; "/var/kurma"] ++ [cgroupsMount]).
  apply NoDup_app. split_and!.
  - refine (bool_decide_unpack _ _). vm_compute. exact I.
  - intros x Hx Hcg. apply list_elem_of_singleton in Hcg. subst x. contradiction.
  - apply NoDup_singleton.
Qed.

(** On a fresh boot, where the mount table file does not exist,
    [createSystemMounts] is the loop over the default mounts with nothing
    mounted yet. *)
Lemma createSystemMounts_fresh cgroupsMount MountProcFile (w : World) :
  let line := ELog LInfo "Creating system mounts" [] in
  let stat := ELstat MountProcFile (Some ErrNotExist) in
  os_Lstat env (w ++ [line]) MountProcFile = Some ErrNotExist ->
  value (Init.createSystemMounts env cgroupsMount MountProcFile) w
  = value (Init.mountEach env ∅ (Init.systemMounts cgroupsMount)) (w ++ [line; stat])
  /\ events (Init.createSystemMounts env cgroupsMount MountProcFile) w
  = line :: stat
    :: events (Init.mountEach env ∅ (Init.systemMounts cgroupsMount)) (w ++ [line; stat]).
Proof.
  cbv zeta. intros Hstat. unfold Init.createSystemMounts.
  rewrite value_bind, events_bind, events_log, value_bind, events_bind.
  rewrite value_call, events_call, Hstat. cbn [IsNotExist app].
  rewrite <- app_assoc. split; reflexivity.
Qed.

(** On a nested boot [createSystemMounts] is the loop with the mounts the
    mount table shows; a mount table that cannot be examined or read is
    an error, and nothing is mounted. *)
Lemma createSystemMounts_nested cgroupsMount MountProcFile (w : World) :
  let line := ELog LInfo "Creating system mounts" [] in
  let stat := ELstat MountProcFile None in
  os_Lstat env (w ++ [line]) MountProcFile = None ->
  match proc_MountPoints env (w ++ [line; stat]) with
  | Ok existing =>
      value (Init.createSystemMounts env cgroupsMount MountProcFile) w
      = value (Init.mountEach env existing (Init.systemMounts cgroupsMount))
              (w ++ [line; stat; EMountPoints None])
      /\ events (Init.createSystemMounts env cgroupsMount MountProcFile) w
      = line :: stat :: EMountPoints None
        :: events (Init.mountEach env existing (Init.systemMounts cgroupsMount))
                  (w ++ [line; stat; EMountPoints None])
  | Err e =>
      value (Init.createSystemMounts env cgroupsMount MountProcFile) w
      = Some (Errorf "failed to read existing mount points: %v" [AErr e])
      /\ events (Init.createSystemMounts env cgroupsMount MountProcFile) w
      = [line; stat; EMountPoints (Some e)]
  end.
Proof.
  cbv zeta. intros Hstat. unfold Init.createSystemMounts.
  rewrite !value_bind, !events_bind, !events_log, !value_call, !events_call.
  rewrite Hstat. rewrite !value_bind, !events_bind, !value_call, !events_call.
  rewrite <- !app_assoc. cbn [app].
  destruct (proc_MountPoints env _) as [existing|e]; split; reflexivity.
Qed.

End Mounts.

Example nestedBoot_mounts :
  Init.createSystemMounts nestedBoot "/sys/fs/cgroup" "/proc/mounts" []
  = (Some (Errorf "failed to mount %q: %v" [AStr "/sys"; AErr EIO]),
     [ ELog LInfo "Creating system mounts" [];
       ELstat "/proc/mounts" None;
       EMountPoints None;
       ELog LTrace "- skipping %q, already mounted" [AStr "/dev"];
       ELog LTrace "- mounting %q (type %q) to %q"
            [AStr "none"; AStr "devpts"; AStr "/dev/pts"];
       EMount "none" "/dev/pts" "devpts" EmptyString None;
       ELog LTrace "- skipping %q, already mounted" [AStr "/proc"];
       ELog LTrace "- mounting %q (type %q) to %q"
            [AStr "none"; AStr "sysfs"; AStr "/sys"];
       EMount "none" "/sys" "sysfs" EmptyString (Some EIO) ]).
Proof. vm_compute. reflexivity. Qed.

Lemma mounted_targets_are_skipped_witness :
  ("/dev" ∉ targetsMounted
     (events (Init.mountEach nestedBoot devAndProc (Init.systemMounts "/sys/fs/cgroup")) []))
  /\ (value (Init.mountEach nestedBoot devAndProc
               [("/dev", "devtmpfs", "devtmpfs"); ("/proc", "none", "proc")]) [] = None
      /\ events (Init.mountEach nestedBoot devAndProc
                   [("/dev", "devtmpfs", "devtmpfs"); ("/proc", "none", "proc")]) []
         = [ ELog LTrace "- skipping %q, already mounted" [AStr "/dev"];
             ELog LTrace "- skipping %q, already mounted" [AStr "/proc"] ])
  /\ NoDup (targetsMounted
       (events (Init.mountEach nestedBoot devAndProc (Init.systemMounts "/sys/fs/cgroup")) [])).
Proof.
  split; [|split].
  - apply (mounted_targets_are_skipped nestedBoot devAndProc
             (Init.systemMounts "/sys/fs/cgroup") []).
    vm_compute. eauto.
  - apply (mounted_targets_are_skipped nestedBoot devAndProc
             [("/dev", "devtmpfs", "devtmpfs"); ("/proc", "none", "proc")] []).
    intros m Hm.
    apply elem_of_cons in Hm as [->|Hm]; [vm_compute; eauto|].
    apply elem_of_cons in Hm as [->|Hm]; [vm_compute; eauto|].
    apply elem_of_nil in Hm. destruct Hm.
  - apply (mounted_targets_are_skipped nestedBoot devAndProc
             (Init.systemMounts "/sys/fs/cgroup") []).
    refine (bool_decide_unpack _ _). vm_compute. exact I.
Defined.

(** ** The cgroup initializer *)

Section Cgroups.

Variable env : Env.
Variable cgroupsMount : string.

Let location : string := Go.Join cgroupsMount "memory".
Let hpath : string := Go.Join location "memory.use_hierarchy".
Let flag : N := N.lor O_WRONLY O_TRUNC.

(** What the closure does, by the answers it gets. *)
Lemma setUseHierarchy_run (w : World) :
  let ores := os_OpenFile env w hpath flag 420%N in
  let opened := EOpenFile hpath flag 420%N ores in
  let wres := file_Write env (w ++ [opened]) hpath ("1" +:+ LF) in
  let written := EWrite hpath ("1" +:+ LF) wres in
  value (Init.setUseHierarchy env location) w =
    match ores, wres with
    | Some e, _ => Some (Errorf "Failed to configure memory hierarchy: %v" [AErr e])
    | None, Some e => Some (Errorf "Failed to configure memory heirarchy: %v" [AErr e])
    | None, None => None
    end
  /\ events (Init.setUseHierarchy env location) w =
    match ores with
    | Some e => [opened]
    | None => [opened; written; EClose hpath]
    end.
Proof.
  unfold Init.setUseHierarchy. fold hpath. fold flag. run.
  destruct (os_OpenFile env w hpath flag 420%N) as [e|]; run; [auto|].
  destruct (file_Write env _ hpath ("1" +:+ LF)) as [e|]; run; auto.
Qed.

(** One turn of the loop for a controller other than memory. *)
Lemma mountEachCgroup_other cgrouptype rest (w : World) :
  String.eqb cgrouptype "memory" = false ->
  let loc := Go.Join cgroupsMount cgrouptype in
  let line := ELog LTrace "- mounting cgroup %q to %q" [AStr cgrouptype; AStr loc] in
  let res := syscall_Mount env (w ++ [line]) "none" loc "cgroup" cgrouptype in
  let ev := EMount "none" loc "cgroup" cgrouptype res in
  value (Init.mountEachCgroup env cgroupsMount (cgrouptype :: rest)) w =
    match res with
    | Some e => Some (Errorf "failed to mount cgroup %q: %v" [AStr cgrouptype; AErr e])
    | None => value (Init.mountEachCgroup env cgroupsMount rest) (w ++ [line; ev])
    end
  /\ events (Init.mountEachCgroup env cgroupsMount (cgrouptype :: rest)) w =
    line :: ev ::
    match res with
    | Some e => []
    | None => events (Init.mountEachCgroup env cgroupsMount rest) (w ++ [line; ev])
    end.
Proof.
  intros Hne. cbn [Init.mountEachCgroup]. rewrite Hne.
  unfold Init.handleMount. run.
  destruct (syscall_Mount env _ "none" _ "cgroup" cgrouptype) as [e|];
    run; rewrite <- ?app_assoc; auto.
Qed.

(** One turn of the loop for the memory controller. *)
Lemma mountEachCgroup_memory rest (w : World) :
  let line := ELog LTrace "- mounting cgroup %q to %q" [AStr "memory"; AStr location] in
  let res := syscall_Mount env (w ++ [line]) "none" location "cgroup" "memory" in
  let ev := EMount "none" location "cgroup" "memory" res in
  let hevs := events (Init.setUseHierarchy env location) (w ++ [line; ev]) in
  value (Init.mountEachCgroup env cgroupsMount ("memory" :: rest)) w =
    match res with
    | Some e => Some (Errorf "failed to mount cgroup %q: %v" [AStr "memory"; AErr e])
    | None =>
        match value (Init.setUseHierarchy env location) (w ++ [line; ev]) with
        | Some e => Some e
        | None =>
            value (Init.mountEachCgroup env cgroupsMount rest) (w ++ [line; ev] ++ hevs)
        end
    end
  /\ events (Init.mountEachCgroup env cgroupsMount ("memory" :: rest)) w =
    line :: ev ::
    match res with
    | Some e => []
    | None =>
        hevs ++
        match value (Init.setUseHierarchy env location) (w ++ [line; ev]) with
        | Some e => []
        | None =>
            events (Init.mountEachCgroup env cgroupsMount rest) (w ++ [line; ev] ++ hevs)
        end
    end.
Proof.
  cbn [Init.mountEachCgroup]. change (String.eqb "memory" "memory") with true.
  fold location. cbv iota.
  unfold Init.handleMount. run.
  destruct (syscall_Mount env _ "none" location "cgroup" "memory") as [e|];
    run; [auto|].
  rewrite <- !app_assoc. cbn [app].
  destruct (value (Init.setUseHierarchy env location) _) as [e|];
    run; rewrite <- ?app_assoc; cbn [app]; auto.
Qed.

(** The loop over any list of controllers: the hierarchy file is opened
    once memory is mounted, a failed open or write is what the loop
    returns, and after a mounted memory controller the loop succeeds only
    with [1] written. *)
Lemma mountEachCgroup_hierarchy types (w : World) :
  let evs := events (Init.mountEachCgroup env cgroupsMount types) w in
  let res := value (Init.mountEachCgroup env cgroupsMount types) w in
  (EMount "none" location "cgroup" "memory" None ∈ evs ->
   exists r, EOpenFile hpath flag 420%N r ∈ evs)
  /\ (forall e fl perm,
         EOpenFile hpath fl perm (Some e) ∈ evs ->
         res = Some (Errorf "Failed to configure memory hierarchy: %v" [AErr e]))
  /\ (forall e data,
         EWrite hpath data (Some e) ∈ evs ->
         res = Some (Errorf "Failed to configure memory heirarchy: %v" [AErr e]))
  /\ (EMount "none" location "cgroup" "memory" None ∈ evs ->
      res = None -> EWrite hpath ("1" +:+ LF) None ∈ evs).
Proof.
  cbv zeta. revert w. induction types as [|cgrouptype rest IH]; intros w.
  - cbn. repeat split; intros; exfalso; eapply not_elem_of_nil; eauto.
  - destruct (String.eqb cgrouptype "memory") eqn:Hmem.
    + apply String.eqb_eq in Hmem. subst cgrouptype.
      destruct (mountEachCgroup_memory rest w) as [Hv He]. cbv zeta in Hv, He.
      rewrite Hv, He. clear Hv He.
      destruct (syscall_Mount env _ "none" location "cgroup" "memory") as [e|].
      { repeat split; intros; in_cases H. }
      destruct (setUseHierarchy_run
                  (w ++ [ELog LTrace "- mounting cgroup %q to %q"
                              [AStr "memory"; AStr location];
                         EMount "none" location "cgroup" "memory" None]))
        as [Hv He]. cbv zeta in Hv, He. rewrite Hv, He. clear Hv He.
      destruct (os_OpenFile env _ hpath flag 420%N) as [e|].
      { repeat split; intros; try (eexists; in_list); in_cases H;
          try reflexivity; try discriminate. }
      destruct (file_Write env _ hpath ("1" +:+ LF)) as [e|].
      { repeat split; intros; try (eexists; in_list); in_cases H;
          try reflexivity; try discriminate. }
      match goal with
      | |- context [events (Init.mountEachCgroup env cgroupsMount rest) ?w'] =>
          destruct (IH w') as (_ & IH2 & IH3 & _)
      end.
      repeat split; intros.
      * eexists. in_list.
      * apply elem_of_cons in H as [H|H]; [discriminate|].
        apply elem_of_cons in H as [H|H]; [discriminate|].
        apply elem_of_app in H as [H|H]; [in_cases H|]. eauto.
      * apply elem_of_cons in H as [H|H]; [discriminate|].
        apply elem_of_cons in H as [H|H]; [discriminate|].
        apply elem_of_app in H as [H|H]; [in_cases H|]. eauto.
      * in_list.
    + destruct (mountEachCgroup_other cgrouptype rest w Hmem) as [Hv He].
      cbv zeta in Hv, He. rewrite Hv, He. clear Hv He.
      destruct (syscall_Mount env _ "none" _ "cgroup" cgrouptype) as [e|].
      { repeat split; intros; in_cases H. }
      match goal with
      | |- context [events (Init.mountEachCgroup env cgroupsMount rest) ?w'] =>
          destruct (IH w') as (IH1 & IH2 & IH3 & IH4)
      end.
      assert (Hother : forall r,
                 EMount "none" location "cgroup" "memory" r
                 <> EMount "none" (Go.Join cgroupsMount cgrouptype) "cgroup" cgrouptype None).
      { intros r Heq. injection Heq as _ Heq _. subst cgrouptype.
        discriminate Hmem. }
      repeat split; intros.
      * apply elem_of_cons in H as [H|H]; [discriminate|].
        apply elem_of_cons in H as [H|H]; [destruct (Hother _ H)|].
        destruct (IH1 H) as [r Hr]. exists r. do 2 right. exact Hr.
      * apply elem_of_cons in H as [H|H]; [discriminate|].
        apply elem_of_cons in H as [H|H]; [discriminate|]. eauto.
      * apply elem_of_cons in H as [H|H]; [discriminate|].
        apply elem_of_cons in H as [H|H]; [discriminate|]. eauto.
      * apply elem_of_cons in H as [H|H]; [discriminate|].
        apply elem_of_cons in H as [H|H]; [destruct (Hother _ H)|].
        do 2 right. auto.
Qed.

(** C6.  Once the memory controller is mounted its hierarchy file is
    opened for writing; if the open fails, or the write of [1] fails,
    [mountCgroups] returns that failure as its error, and it returns
    success only with [1] written. *)
Theorem memory_hierarchy_failure_is_fatal (w : World) :
  let evs := events (Init.mountCgroups env cgroupsMount) w in
  let res := value (Init.mountCgroups env cgroupsMount) w in
  EMount "none" location "cgroup" "memory" None ∈ evs ->
  (exists r, EOpenFile hpath (N.lor O_WRONLY O_TRUNC) 420%N r ∈ evs)
  /\ (forall e fl perm,
         EOpenFile hpath fl perm (Some e) ∈ evs ->
         res = Some (Errorf "Failed to configure memory hierarchy: %v" [AErr e]))
  /\ (forall e data,
         EWrite hpath data (Some e) ∈ evs ->
         res = Some (Errorf "Failed to configure memory heirarchy: %v" [AErr e]))
  /\ (res = None -> EWrite hpath ("1" +:+ LF) None ∈ evs).
Proof.
  cbv zeta. unfold Init.mountCgroups. run.
  destruct (mountEachCgroup_hierarchy Init.cgroupTypes
              (w ++ [ELog LInfo "Setting up cgroups" []]))
    as (H1 & H2 & H3 & H4).
  intros Hmem. apply elem_of_cons in Hmem as [Hmem|Hmem]; [discriminate|].
  repeat split.
  - destruct (H1 Hmem) as [r Hr]. exists r. right. exact Hr.
  - intros e fl perm H. apply elem_of_cons in H as [H|H]; [discriminate|]. eauto.
  - intros e data H. apply elem_of_cons in H as [H|H]; [discriminate|]. eauto.
  - intros Hres. right. auto.
Qed.

End Cgroups.

Lemma memory_hierarchy_failure_is_fatal_witness :
  value (Init.mountCgroups brokenHierarchy "/sys/fs/cgroup") []
  = Some (Errorf "Failed to configure memory heirarchy: %v" [AErr EIO]).
Proof.
  destruct (memory_hierarchy_failure_is_fatal brokenHierarchy "/sys/fs/cgroup" [])
    as (_ & _ & H & _).
  - vm_compute. in_list.
  - apply (H EIO ("1" +:+ LF)). vm_compute. in_list.
Defined.

(** ** The hostname step *)

(** C10.  [configureHostname] returns no error, whatever the
    configuration and whatever the system call answers.  With an empty
    hostname it does nothing; a failure of the system call is logged. *)
Theorem configureHostname_never_fails (env : Env) (config : kurmaConfig) (w : World) :
  let evs := events (Init.configureHostname env config) w in
  value (Init.configureHostname env config) w = None
  /\ (Hostname config = EmptyString -> evs = [])
  /\ (forall e,
         ESethostname (Hostname config) (Some e) ∈ evs ->
         ELog LError "- Failed to set hostname: %v" [AErr e] ∈ evs).
Proof.
  cbv zeta. unfold Init.configureHostname.
  destruct (String.eqb (Hostname config) EmptyString) eqn:Hname.
  - repeat split. intros e H. in_cases H.
  - run. apply String.eqb_neq in Hname.
    destruct (syscall_Sethostname env _ (Hostname config)) as [e|]; run.
    + repeat split; [contradiction|].
      intros e0 H. in_cases H. in_list.
    + repeat split; [contradiction|].
      intros e0 H. in_cases H.
Qed.

Lemma configureHostname_never_fails_witness :
  events (Init.configureHostname strictHostname unnamed) [] = []
  /\ value (Init.configureHostname strictHostname host1) [] = None
  /\ ELog LError "- Failed to set hostname: %v" [AErr EIO]
     ∈ events (Init.configureHostname strictHostname host1) [].
Proof.
  split; [|split].
  - apply (configureHostname_never_fails strictHostname unnamed []). reflexivity.
  - apply (configureHostname_never_fails strictHostname host1 []).
  - apply (configureHostname_never_fails strictHostname host1 []).
    vm_compute. in_list.
Defined.

(** ** The initial containers *)



Section InitContainers.

Variable env : Env.




End InitContainers.

Example firstImageBroken_run :
  Init.startInitContainers firstImageBroken twoImages []
  = (None,
     [ ERetrieveImage "a.aci" None;
       EFindManifest "a.aci" (Some EIO);
       ELog LError "Failed to find manifest in image %q: %v" [AStr "a.aci"; AErr EIO];
       EClose "a.aci";
       ERetrieveImage "b.aci" None;
       EFindManifest "b.aci" None;
       ESeek "b.aci" 0%Z 0%nat None;
       EManagerCreate EmptyString {| Name := "b.aci" |} "b.aci" None;
       ELog LInfo "Launched container %s" [AStr "b.aci"];
       EClose "b.aci" ]).
Proof. vm_compute. reflexivity. Qed.


(** ** Manifest extraction *)

Lemma scanEntries_skip entries rest stop :
  (forall h, h ∈ entries -> Go.Clean (hdrName h) <> "manifest") ->
  Create.scanEntries (entries ++ rest) stop = Create.scanEntries rest stop.
Proof.
  induction entries as [|h entries IH]; intros Hnone; [reflexivity|].
  cbn [app Create.scanEntries].
  destruct (String.eqb (Go.Clean (hdrName h)) "manifest") eqn:Hname.
  - apply String.eqb_eq in Hname. destruct (Hnone h); [left|exact Hname].
  - cbn. apply IH. intros h' Hin. apply Hnone. right. exact Hin.
Qed.

(** C7, as the code has it.  When the first entry whose cleaned path is
    [manifest] has content [X], extraction returns exactly [X]; when the
    entries run out, with [io.EOF], and none has that cleaned path, it
    fails with the manifest-not-found error. *)
Theorem findManifest_first_manifest_entry (entries : list tarEntry) (stop : option error) :
  (forall i header X,
      entries !! i = Some header ->
      Go.Clean (hdrName header) = "manifest" ->
      payload header = Ok X ->
      (forall j h, j < i -> entries !! j = Some h -> Go.Clean (hdrName h) <> "manifest") ->
      Create.findManifest (TarStream entries stop) = Ok X)
  /\ ((forall h, h ∈ entries -> Go.Clean (hdrName h) <> "manifest") ->
      Create.findManifest (TarStream entries None)
      = Err (Errorf "failed to locate manifest file" [])).
Proof.
  split.
  - intros i header X Hi Hname HX Hfirst. cbn [Create.findManifest].
    rewrite <- (take_drop_middle entries i header Hi).
    rewrite scanEntries_skip.
    + cbn [Create.scanEntries]. rewrite Hname. cbn. rewrite HX. reflexivity.
    + intros h Hin. apply elem_of_take in Hin as (j & Hj & Hlt). eauto.
  - intros Hnone. cbn [Create.findManifest].
    rewrite <- (app_nil_r entries). rewrite scanEntries_skip by exact Hnone.
    reflexivity.
Qed.

Lemma findManifest_first_manifest_entry_witness :
  Create.findManifest smallImage = Ok braces
  /\ Create.findManifest
       (TarStream [ {| hdrName := "rootfs/bin/sh"; payload := Ok [Byte.x7f] |} ] None)
     = Err (Errorf "failed to locate manifest file" []).
Proof.
  split.
  - apply (findManifest_first_manifest_entry _ None)
      with (i := 1) (header := {| hdrName := "./manifest"; payload := Ok braces |}).
    + reflexivity.
    + reflexivity.
    + reflexivity.
    + intros j h Hj Hh. destruct j as [|j]; [|lia].
      cbn in Hh. injection Hh as <-. apply String.eqb_neq. vm_compute. reflexivity.
  - apply (findManifest_first_manifest_entry _ None).
    intros h Hin. in_cases Hin. apply String.eqb_neq. vm_compute. reflexivity.
Defined.

(** C7 as stated fails: of two entries named [manifest], the content of
    the second is not what extraction returns. *)
Lemma findManifest_not_any_manifest_entry :
  ~ (forall (entries : list tarEntry) (stop : option error) header X,
        header ∈ entries ->
        Go.Clean (hdrName header) = "manifest" ->
        payload header = Ok X ->
        Create.findManifest (TarStream entries stop) = Ok X).
Proof.
  intros H.
  specialize (H twoManifests None {| hdrName := "manifest"; payload := Ok [Byte.x42] |}
                [Byte.x42]).
  assert (Hfalse : Create.findManifest (TarStream twoManifests None) = Ok [Byte.x42]).
  { apply H; [unfold twoManifests; in_list|reflexivity|reflexivity]. }
  vm_compute in Hfalse. discriminate Hfalse.
Qed.

(** ** The network configurator *)

Section Network.

Variable env : Env.

(** An entry applies to a link when its device is the link name or, as a
    regular expression, matches it. *)
Let hit (linkName : string) (n : kurmaNetworkInterface) : Prop :=
  linkName = Device n \/ regexp_MatchString env (Device n) linkName = true.

Lemma findNetconf_first_hit linkName interfaces :
  match Init.findNetconf env linkName interfaces with
  | Some n =>
      exists i, interfaces !! i = Some n /\ hit linkName n
                /\ forall j m, j < i -> interfaces !! j = Some m -> ~ hit linkName m
  | None => forall m, m ∈ interfaces -> ~ hit linkName m
  end.
Proof.
  induction interfaces as [|n rest IH]; cbn [Init.findNetconf].
  - intros m Hm. in_cases Hm.
  - destruct (String.eqb linkName (Device n)) eqn:Hexact.
    { apply String.eqb_eq in Hexact. exists 0. repeat split; [left; exact Hexact|].
      intros j m Hj. lia. }
    destruct (regexp_MatchString env (Device n) linkName) eqn:Hre.
    { exists 0. repeat split; [right; exact Hre|]. intros j m Hj. lia. }
    apply String.eqb_neq in Hexact.
    assert (Hmiss : ~ hit linkName n).
    { intros [He|Hr]; [contradiction|congruence]. }
    destruct (Init.findNetconf env linkName rest) as [n'|].
    + destruct IH as (i & Hi & Hhit & Hbefore). exists (S i).
      repeat split; [exact Hi|exact Hhit|].
      intros j m Hj Hm. destruct j as [|j].
      * cbn in Hm. injection Hm as <-. exact Hmiss.
      * apply (Hbefore j m); [lia|exact Hm].
    + intros m Hm. apply elem_of_cons in Hm as [->|Hm]; [exact Hmiss|auto].
Qed.

(** The loop over the links applies to each link the entry found for it,
    and nothing to a link without one. *)
Lemma configureLinks_applied nc links (w : World) :
  applied (events (Init.configureLinks env nc links) w)
  = omap (fun link => pair link <$> Init.findNetconf env (LinkName link) (Interfaces nc))
         links.
Proof.
  revert w. induction links as [|link rest IH]; intros w; [reflexivity|].
  cbn [Init.configureLinks omap]. run.
  destruct (Init.findNetconf env (LinkName link) (Interfaces nc)) as [netconf|]; run.
  - destruct (init_configureInterface env _ link netconf) as [e|]; run;
      rewrite IH; reflexivity.
  - rewrite IH. reflexivity.
Qed.

(** Configuring the links touches no file and installs no route. *)
Lemma configureLinks_quiet nc links (w : World) :
  Forall (fun ev => touchesFile ev = false /\ isRouteAdd ev = false)
         (events (Init.configureLinks env nc links) w).
Proof.
  revert w. induction links as [|link rest IH]; intros w; [constructor|].
  cbn [Init.configureLinks]. run.
  destruct (Init.findNetconf env (LinkName link) (Interfaces nc)) as [netconf|]; run.
  - destruct (init_configureInterface env _ link netconf) as [e|]; run;
      repeat (constructor; [split; reflexivity|]); apply IH.
  - repeat (constructor; [split; reflexivity|]). apply IH.
Qed.

Lemma writeNameservers_no_route dns (w : World) :
  Forall (fun ev => isRouteAdd ev = false) (events (Init.writeNameservers env dns) w).
Proof.
  revert w. induction dns as [|ns rest IH]; intros w; [constructor|].
  cbn [Init.writeNameservers]. run.
  destruct (file_Write env w Init.resolvConf _) as [e|]; run;
    constructor; [reflexivity|constructor|reflexivity|apply IH].
Qed.

Lemma configureDNS_no_route nc (w : World) :
  Forall (fun ev => isRouteAdd ev = false) (events (Init.configureDNS env nc) w).
Proof.
  unfold Init.configureDNS. destruct (0 <? length (DNS nc))%nat; [|constructor].
  run. destruct (os_RemoveAll env w Init.resolvConf) as [e|]; run.
  { repeat constructor. }
  destruct (os_OpenFile env _ Init.resolvConf O_CREATE 420%N) as [e|]; run.
  { repeat constructor. }
  do 2 (constructor; [reflexivity|]).
  apply Forall_app. split; [apply writeNameservers_no_route|repeat constructor].
Qed.

(** An event that cannot be in a trace of a given kind. *)
Ltac not_there H lemma :=
  eapply Forall_forall in H; [|apply lemma]; cbn in H;
  first [discriminate H | destruct H; discriminate].

(** Whenever a route install fails, [configureNetwork] returns success
    with the failure logged and without having touched any file: the
    name servers are not written. *)
Lemma configureNetwork_route_failure config (w : World) route e :
  let evs := events (Init.configureNetwork env config) w in
  ERouteAdd route (Some e) ∈ evs ->
  value (Init.configureNetwork env config) w = None
  /\ ELog LWarn "Failed to configure gateway: %v" [AErr e] ∈ evs
  /\ Forall (fun ev => touchesFile ev = false) evs.
Proof.
  cbv zeta. unfold Init.configureNetwork.
  destruct (NetworkConfig config) as [nc|]; run; [|intros H; in_cases H].
  destruct (netlink_LinkList env w) as [links|e0]; run; [|intros H; in_cases H].
  assert (Hquiet := configureLinks_quiet nc links (w ++ [ELinkList None])).
  assert (Hfiles : Forall (fun ev => touchesFile ev = false)
                          (events (Init.configureLinks env nc links) (w ++ [ELinkList None]))).
  { eapply Forall_impl; [exact Hquiet|]. intros ev [Hf _]. exact Hf. }
  destruct (String.eqb (Gateway nc) EmptyString); cbn [negb]; run.
  { intros H. apply elem_of_cons in H as [H|H]; [discriminate|].
    apply elem_of_app in H as [H|H].
    - not_there H configureLinks_quiet.
    - not_there H configureDNS_no_route. }
  destruct (net_ParseIP env (Gateway nc)) as [ip|]; run.
  - destruct (netlink_RouteAdd env _ _) as [e'|]; run; intros H;
      apply elem_of_cons in H as [H|H]; try discriminate;
      apply elem_of_app in H as [H|H]; try (not_there H configureLinks_quiet).
    + in_cases H. split_and!; [reflexivity| |].
      * right. apply elem_of_app. right. in_list.
      * constructor; [reflexivity|]. apply Forall_app. split; [exact Hfiles|].
        repeat constructor.
    + apply elem_of_cons in H as [H|H]; [discriminate|].
      apply elem_of_cons in H as [H|H]; [discriminate|].
      not_there H configureDNS_no_route.
  - destruct (netlink_RouteAdd env _ _) as [e'|]; run; intros H;
      apply elem_of_cons in H as [H|H]; try discriminate;
      apply elem_of_app in H as [H|H]; try (not_there H configureLinks_quiet).
    + in_cases H. split_and!; [reflexivity| |].
      * right. apply elem_of_app. right. in_list.
      * constructor; [reflexivity|]. apply Forall_app. split; [exact Hfiles|].
        repeat constructor.
    + apply elem_of_cons in H as [H|H]; [discriminate|].
      apply elem_of_cons in H as [H|H]; [discriminate|].
      apply elem_of_cons in H as [H|H]; [discriminate|].
      not_there H configureDNS_no_route.
Qed.

(** Whenever the links were listed and the configured gateway does not
    parse, [configureNetwork] logs the warning and still asks for a route
    with a nil gateway. *)
Lemma configureNetwork_nil_gateway config nc (w : World) :
  let evs := events (Init.configureNetwork env config) w in
  NetworkConfig config = Some nc ->
  Gateway nc <> EmptyString ->
  net_ParseIP env (Gateway nc) = None ->
  ELinkList None ∈ evs ->
  ELog LWarn "Failed to configure gatway to %q" [AStr (Gateway nc)] ∈ evs
  /\ exists r, ERouteAdd {| Scope := SCOPE_UNIVERSE; Gw := None |} r ∈ evs.
Proof.
  cbv zeta. intros Hnc Hgw Hparse. unfold Init.configureNetwork. rewrite Hnc. run.
  destruct (netlink_LinkList env w) as [links|e0]; run; [|intros H; in_cases H].
  intros _. apply String.eqb_neq in Hgw. rewrite Hgw. cbn [negb]. rewrite Hparse. run.
  split.
  - right. apply elem_of_app. right. left.
  - eexists. right. apply elem_of_app. right. right. left.
Qed.

End Network.

(** C1, as the code has it.  The entry selected for a link is the first
    one, in configured order, whose device equals the link name or, as a
    regular expression, matches it: both tests are made on an entry
    before the next entry is looked at.  It is the entry applied to the
    link, and a link with no such entry gets none.  For [eth0] and the
    entries [eth1], [eth0] the second entry is selected. *)
Theorem findNetconf_first_exact_or_regexp :
  (forall (env : Env) linkName interfaces,
      match Init.findNetconf env linkName interfaces with
      | Some n =>
          exists i,
            interfaces !! i = Some n
            /\ (linkName = Device n \/ regexp_MatchString env (Device n) linkName = true)
            /\ forall j m,
                j < i -> interfaces !! j = Some m ->
                ~ (linkName = Device m \/ regexp_MatchString env (Device m) linkName = true)
      | None =>
          forall m,
            m ∈ interfaces ->
            ~ (linkName = Device m \/ regexp_MatchString env (Device m) linkName = true)
      end)
  /\ (forall (env : Env) nc links w,
         applied (events (Init.configureLinks env nc links) w)
         = omap (fun link =>
                   pair link <$> Init.findNetconf env (LinkName link) (Interfaces nc))
                links)
  /\ Init.findNetconf calm "eth0" [onEth1; onEth0] = Some onEth0.
Proof.
  split; [|split].
  - intros env linkName interfaces. apply findNetconf_first_hit.
  - intros env nc links w. apply configureLinks_applied.
  - vm_compute. reflexivity.
Qed.

Lemma findNetconf_first_exact_or_regexp_witness :
  ~ ("eth0" = Device onEth1 \/ regexp_MatchString calm (Device onEth1) "eth0" = true).
Proof.
  destruct findNetconf_first_exact_or_regexp as (H & _ & _).
  specialize (H calm "eth0" [onEth1; onEth0]).
  change (Init.findNetconf calm "eth0" [onEth1; onEth0]) with (Some onEth0) in H.
  destruct H as (i & Hi & _ & Hbefore).
  destruct i as [|i].
  - cbn in Hi. apply (f_equal (fun o => from_option Device EmptyString o)) in Hi.
    vm_compute in Hi. apply String.eqb_eq in Hi. vm_compute in Hi. discriminate Hi.
  - apply (Hbefore 0 onEth1); [lia|reflexivity].
Defined.

(** C1 as stated fails: an earlier entry that matches as a regular
    expression is selected before a later entry that is exactly the link
    name. *)
Lemma findNetconf_regexp_before_exact :
  ~ (forall linkName interfaces n,
        firstExact linkName interfaces = Some n ->
        Init.findNetconf calm linkName interfaces = Some n).
Proof.
  intros H. specialize (H "eth0" [onAnyEth; onEth0] onEth0 eq_refl).
  apply (f_equal (fun o => from_option Device EmptyString o)) in H.
  vm_compute in H. apply String.eqb_eq in H. vm_compute in H. discriminate H.
Qed.

(** With the route installed, the resolver file is removed and created
    again; it is opened without write access, so the line of the first
    server is refused and that error is returned. *)
Example gateway_then_dns :
  Init.configureNetwork calm gatewayAndDns []
  = (Some EBADF,
     [ ELinkList None;
       ERouteAdd {| Scope := SCOPE_UNIVERSE;
                    Gw := Some [0; 0; 0; 0; 0; 0; 0; 0; 0; 0; 255; 255; 10; 0; 0; 1]%N |}
                 None;
       ELog LInfo "Configured gatway to %s" [AStr "10.0.0.1"];
       ERemoveAll "/etc/resolv.conf" None;
       EOpenFile "/etc/resolv.conf" O_CREATE 420%N None;
       EWrite "/etc/resolv.conf" ("nameserver 8.8.8.8" +:+ LF) (Some EBADF);
       EClose "/etc/resolv.conf" ]).
Proof. vm_compute. reflexivity. Qed.

(** C2, on the code.  Whenever installing the route fails,
    [configureNetwork] logs the failure and returns success at once,
    having touched no file: the resolver file is not replaced, although
    name servers may be configured.  So it is for the gateway [10.0.0.1]
    and two name servers. *)
Theorem route_failure_returns_before_dns :
  (forall (env : Env) config (w : World) route e,
      let evs := events (Init.configureNetwork env config) w in
      ERouteAdd route (Some e) ∈ evs ->
      value (Init.configureNetwork env config) w = None
      /\ ELog LWarn "Failed to configure gateway: %v" [AErr e] ∈ evs
      /\ Forall (fun ev => touchesFile ev = false) evs)
  /\ Init.configureNetwork routeDown gatewayAndDns []
     = (None,
        [ ELinkList None;
          ERouteAdd {| Scope := SCOPE_UNIVERSE;
                       Gw := Some [0; 0; 0; 0; 0; 0; 0; 0; 0; 0; 255; 255; 10; 0; 0; 1]%N |}
                    (Some EIO);
          ELog LWarn "Failed to configure gateway: %v" [AErr EIO] ]).
Proof.
  split.
  - intros env config w route e. apply configureNetwork_route_failure.
  - vm_compute. reflexivity.
Qed.

Lemma route_failure_returns_before_dns_witness :
  Forall (fun ev => touchesFile ev = false)
         (events (Init.configureNetwork routeDown gatewayAndDns) []).
Proof.
  destruct route_failure_returns_before_dns as [H _].
  apply (H routeDown gatewayAndDns []
           {| Scope := SCOPE_UNIVERSE;
              Gw := Some [0; 0; 0; 0; 0; 0; 0; 0; 0; 0; 255; 255; 10; 0; 0; 1]%N |} EIO).
  vm_compute. in_list.
Defined.

(** C3, on the code.  Whenever the links were listed and the configured
    gateway does not parse, [configureNetwork] logs the warning and still
    asks for a route, with a nil gateway.  So it is for the gateway
    [not-an-ip]: the route is asked for and refused. *)
Theorem unparsed_gateway_still_routed :
  (forall (env : Env) config nc (w : World),
      let evs := events (Init.configureNetwork env config) w in
      NetworkConfig config = Some nc ->
      Gateway nc <> EmptyString ->
      net_ParseIP env (Gateway nc) = None ->
      ELinkList None ∈ evs ->
      ELog LWarn "Failed to configure gatway to %q" [AStr (Gateway nc)] ∈ evs
      /\ exists r, ERouteAdd {| Scope := SCOPE_UNIVERSE; Gw := None |} r ∈ evs)
  /\ Init.configureNetwork calm badGateway []
     = (None,
        [ ELinkList None;
          ELog LWarn "Failed to configure gatway to %q" [AStr "not-an-ip"];
          ERouteAdd {| Scope := SCOPE_UNIVERSE; Gw := None |} (Some ErrNoGateway);
          ELog LWarn "Failed to configure gateway: %v" [AErr ErrNoGateway] ]).
Proof.
  split.
  - intros env config nc w. apply configureNetwork_nil_gateway.
  - vm_compute. reflexivity.
Qed.

Lemma unparsed_gateway_still_routed_witness :
  exists r,
    ERouteAdd {| Scope := SCOPE_UNIVERSE; Gw := None |} r
    ∈ events (Init.configureNetwork calm badGateway) [].
Proof.
  destruct unparsed_gateway_still_routed as [H _].
  apply (H calm badGateway
           {| Interfaces := []; Gateway := "not-an-ip"; DNS := ["8.8.8.8"] |} []).
  - reflexivity.
  - discriminate.
  - reflexivity.
  - vm_compute. in_list.
Defined.

(** ** The streaming upload *)

Lemma ceilDiv_0 c : 0 < c -> ceilDiv 0 c = 0.
Proof.
  intros Hc. unfold ceilDiv. apply Nat.div_small. lia.
Qed.

Lemma ceilDiv_step n c : 0 < n -> 0 < c -> ceilDiv n c = S (ceilDiv (n - c) c).
Proof.
  intros Hn Hc. unfold ceilDiv.
  replace (n + c - 1) with ((n - 1) + 1 * c) by lia.
  rewrite Nat.div_add by lia.
  destruct (le_lt_dec c n) as [Hle|Hlt].
  - replace (n - c + c - 1) with (n - 1) by lia. lia.
  - replace (n - c + c - 1) with (c - 1) by lia.
    rewrite !Nat.div_small by lia. reflexivity.
Qed.

Lemma chunks_nil c : 0 < c -> chunks c [] = [].
Proof.
  intros Hc. unfold chunks. cbn [length]. rewrite ceilDiv_0 by exact Hc. reflexivity.
Qed.

Lemma chunks_cons c b data :
  0 < c -> chunks c (b :: data) = take c (b :: data) :: chunks c (drop c (b :: data)).
Proof.
  intros Hc. unfold chunks.
  rewrite (ceilDiv_step (length (b :: data)) c) by (cbn; lia).
  rewrite length_drop. cbn [seq fmap list_fmap].
  f_equal. rewrite <- fmap_S_seq, <- list_fmap_compose.
  apply list_fmap_ext. intros i j _. unfold chunkAt, compose.
  rewrite drop_drop. reflexivity.
Qed.


Section Upload.

Variable env : Env.
Variable chunkSize : positive.

Let C : nat := Pos.to_nat chunkSize.

(** A copy sends the chunks of the file in order under the one
    identifier: all of them, and then it ends as the reading ends, or
    those before the first that is refused, and then that one last. *)
Lemma copyFrom_runs uploadId stop rest (w : World) :
  (events (Create.copyFrom env chunkSize uploadId stop rest) w
   = accepted uploadId <$> chunks C rest
   /\ value (Create.copyFrom env chunkSize uploadId stop rest) w = stop)
  \/ exists k chunk e,
      chunks C rest !! k = Some chunk
      /\ events (Create.copyFrom env chunkSize uploadId stop rest) w
         = (accepted uploadId <$> take k (chunks C rest))
           ++ [ESend uploadId chunk (Some e)]
      /\ value (Create.copyFrom env chunkSize uploadId stop rest) w = Some e.
Proof.
  assert (HC : 0 < C) by (unfold C; lia).
  remember (length rest) as n eqn:Hn. revert rest w Hn.
  induction n as [n IH] using lt_wf_ind. intros rest w Hn.
  destruct rest as [|b rest].
  - left. rewrite chunks_nil by exact HC. split; reflexivity.
  - rewrite chunks_cons by exact HC. simp copyFrom. cbv zeta.
    unfold Create.byteStreamWrite. run. fold C.
    destruct (stream_Send env w uploadId (take C (b :: rest))) as [e|]; run.
    + right. exists 0, (take C (b :: rest)), e. split_and!; reflexivity.
    + destruct (IH (length (drop C (b :: rest)))) with
        (rest := drop C (b :: rest))
        (w := w ++ [ESend uploadId (take C (b :: rest)) None])
        as [[Hevs Hval]|(k & chunk & e & Hk & Hevs & Hval)]; [|reflexivity| |].
      { rewrite length_drop. subst n. cbn [length]. lia. }
      * left. split; [|exact Hval].
        unfold accepted at 1. cbn [fmap list_fmap]. f_equal. exact Hevs.
      * right. exists (S k), chunk, e.
        split_and!; [exact Hk| |exact Hval].
        unfold accepted at 1. cbn [fmap list_fmap take app]. f_equal. exact Hevs.
Qed.





End Upload.

(** Five bytes in chunks of two. *)
Example registry_upload :
  Create.create registry 2%positive "image.aci" []
  = (None,
     [ EOpen "image.aci" (Ok fiveBytes);
       ESeek "image.aci" 0%Z 0%nat None;
       EClientCreate braces (Ok {| ImageUploadId := "upload-1" |});
       EUploadImage None;
       ESend "upload-1" [Byte.x01; Byte.x02] None;
       ESend "upload-1" [Byte.x03; Byte.x04] None;
       ESend "upload-1" [Byte.x05] None;
       ECloseAndRecv None;
       EClose "image.aci" ]).
Proof. vm_compute. reflexivity. Qed.


(** * More of the code *)

(** Take a membership in a trace built from explicit events, parts put
    end to end and accepted chunks apart. *)
Ltac in_parts H :=
  repeat match type of H with
         | _ ∈ _ :: _ => apply elem_of_cons in H as [H|H]
         | _ ∈ _ ++ _ => apply elem_of_app in H as [H|H]
         | _ ∈ [] => apply elem_of_nil in H; destruct H
         | _ ∈ _ <$> _ => apply list_elem_of_fmap in H as (? & H & _)
         end.

(** Find an explicit event in a trace of parts put end to end. *)
Ltac in_trace :=
  solve [ apply list_elem_of_here
        | apply list_elem_of_further; in_trace
        | apply elem_of_app; left; in_trace
        | apply elem_of_app; right; in_trace ].

(** Find an event of a part of a trace in the whole trace. *)
Ltac find_in H :=
  solve [ exact H
        | apply list_elem_of_here
        | apply list_elem_of_further; find_in H
        | apply elem_of_app; left; find_in H
        | apply elem_of_app; right; find_in H ].

(** ** The network configurator, further *)

Section NetworkMore.

Variable env : Env.



(** The loop over the name servers, by its outcome. *)
Lemma writeNameservers_cases dns (w : World) :
  match value (Init.writeNameservers env dns) w with
  | None => events (Init.writeNameservers env dns) w = resolverWrite None <$> dns
  | Some e =>
      exists k ns,
        dns !! k = Some ns
        /\ events (Init.writeNameservers env dns) w
           = (resolverWrite None <$> take k dns) ++ [resolverWrite (Some e) ns]
  end.
Proof.
  revert w. induction dns as [|ns rest IH]; intros w; [reflexivity|].
  cbn [Init.writeNameservers]. run.
  destruct (file_Write env w Init.resolvConf _) as [e|] eqn:Hw; run.
  - exists 0, ns. split; reflexivity.
  - specialize (IH (w ++ [EWrite Init.resolvConf ("nameserver " +:+ ns +:+ LF) None])).
    destruct (value (Init.writeNameservers env rest) _) as [e|].
    + destruct IH as (k & ns' & Hk & Hevs). exists (S k), ns'.
      split; [exact Hk|]. cbn. f_equal. exact Hevs.
    + cbn. f_equal. exact IH.
Qed.

(** [configureDNS], by its outcome. *)
Lemma configureDNS_cases nc (w : World) :
  let evs := events (Init.configureDNS env nc) w in
  match value (Init.configureDNS env nc) w with
  | None =>
      evs = match DNS nc with
            | [] => []
            | _ =>
                [ ERemoveAll Init.resolvConf None;
                  EOpenFile Init.resolvConf O_CREATE 420%N None ]
                ++ (resolverWrite None <$> DNS nc) ++ [EClose Init.resolvConf]
            end
  | Some e =>
      DNS nc <> []
      /\ (evs = [ERemoveAll Init.resolvConf (Some e)]
          \/ evs = [ ERemoveAll Init.resolvConf None;
                     EOpenFile Init.resolvConf O_CREATE 420%N (Some e) ]
          \/ exists k ns,
               DNS nc !! k = Some ns
               /\ evs = [ ERemoveAll Init.resolvConf None;
                          EOpenFile Init.resolvConf O_CREATE 420%N None ]
                        ++ (resolverWrite None <$> take k (DNS nc))
                        ++ [resolverWrite (Some e) ns; EClose Init.resolvConf])
  end.
Proof.
  cbv zeta. unfold Init.configureDNS.
  destruct (0 <? length (DNS nc))%nat eqn:Hlen.
  2:{ destruct (DNS nc); [reflexivity|discriminate Hlen]. }
  assert (Hne : DNS nc <> []).
  { intros Hnil. rewrite Hnil in Hlen. discriminate Hlen. }
  run.
  destruct (os_RemoveAll env w Init.resolvConf) as [e|]; run.
  { split; [exact Hne|]. left. reflexivity. }
  destruct (os_OpenFile env _ Init.resolvConf O_CREATE 420%N) as [e|]; run.
  { split; [exact Hne|]. right. left. reflexivity. }
  match goal with
  | |- context [value (Init.writeNameservers env ?d) ?w'] =>
      pose proof (writeNameservers_cases d w') as Hw;
      destruct (value (Init.writeNameservers env d) w') as [e|]
  end.
  - destruct Hw as (k & ns & Hk & Hevs). split; [exact Hne|].
    right. right. exists k, ns. split; [exact Hk|].
    rewrite Hevs. rewrite <- !app_assoc. reflexivity.
  - rewrite Hw. destruct (DNS nc); [contradiction|reflexivity].
Qed.

Lemma writable_after_create (w : World) :
  writable (w ++ [EOpenFile Init.resolvConf O_CREATE 420%N None]) Init.resolvConf = false.
Proof.
  unfold writable. rewrite fold_left_app. reflexivity.
Qed.

(** With name servers configured and writes to a file that is not open
    for writing refused, [configureDNS] fails without writing a line: on
    the removal, on the creation or on the line of the first server. *)
Lemma configureDNS_refused nc (w : World) :
  refusesUnwritable env ->
  DNS nc <> [] ->
  exists e,
    value (Init.configureDNS env nc) w = Some e
    /\ Forall (fun ev => writesNothing ev = true) (events (Init.configureDNS env nc) w)
    /\ (ERemoveAll Init.resolvConf (Some e) ∈ events (Init.configureDNS env nc) w
        \/ EOpenFile Init.resolvConf O_CREATE 420%N (Some e)
           ∈ events (Init.configureDNS env nc) w
        \/ exists ns,
            DNS nc !! 0 = Some ns
            /\ EWrite Init.resolvConf ("nameserver " +:+ ns +:+ LF) (Some e)
               ∈ events (Init.configureDNS env nc) w).
Proof.
  intros Hlinux Hdns. unfold Init.configureDNS.
  destruct (DNS nc) as [|ns rest]; [contradiction|]. cbn [length Nat.ltb Nat.leb].
  run.
  destruct (os_RemoveAll env w Init.resolvConf) as [e|]; run.
  { exists e. split_and!; [reflexivity|repeat constructor|left; in_trace]. }
  destruct (os_OpenFile env _ Init.resolvConf O_CREATE 420%N) as [e|]; run.
  { exists e. split_and!; [reflexivity|repeat constructor|right; left; in_trace]. }
  match goal with
  | |- context [file_Write env ?w' Init.resolvConf ?data] =>
      pose proof (Hlinux w' Init.resolvConf data (writable_after_create _)) as Hrefused;
      destruct (file_Write env w' Init.resolvConf data) as [e|]; [|contradiction]
  end.
  run. exists e. split_and!; [reflexivity|repeat constructor|].
  right. right. exists ns. split; [reflexivity|in_trace].
Qed.

(** X2.  The resolver file is opened without write access.  On a host
    that, as Linux does, refuses to write to a file that is not open for
    writing, [configureNetwork] therefore never writes a line for a name
    server.  With name servers configured it returns success only when
    the route could not be installed, which makes it return early and
    leave the resolver file alone; otherwise it returns the error of
    listing the links, of removing or creating the resolver file, or of
    the refused line of the first server. *)
Theorem name_servers_are_never_written config nc (w : World) :
  let evs := events (Init.configureNetwork env config) w in
  refusesUnwritable env ->
  NetworkConfig config = Some nc ->
  DNS nc <> [] ->
  (forall path data, EWrite path data None ∉ evs)
  /\ (forall path flag perm r,
         EOpenFile path flag perm r ∈ evs ->
         path = Init.resolvConf /\ flag = O_CREATE /\ N.land flag 3 = 0%N)
  /\ match value (Init.configureNetwork env config) w with
     | None => exists route e, ERouteAdd route (Some e) ∈ evs
     | Some e =>
         ELinkList (Some e) ∈ evs
         \/ ERemoveAll Init.resolvConf (Some e) ∈ evs
         \/ EOpenFile Init.resolvConf O_CREATE 420%N (Some e) ∈ evs
         \/ exists ns,
             DNS nc !! 0 = Some ns
             /\ EWrite Init.resolvConf ("nameserver " +:+ ns +:+ LF) (Some e) ∈ evs
     end.
Proof.
  cbv zeta. intros Hlinux Hnc Hdns.
  assert (Hopens : forall w' path flag perm r,
             EOpenFile path flag perm r ∈ events (Init.configureDNS env nc) w' ->
             path = Init.resolvConf /\ flag = O_CREATE /\ N.land flag 3 = 0%N).
  { intros w' path flag perm r Hin.
    pose proof (configureDNS_cases nc w') as Hc. cbv zeta in Hc.
    destruct (value (Init.configureDNS env nc) w') as [e'|].
    - destruct Hc as [_ [Hc|[Hc|(k & ns & _ & Hc)]]]; rewrite Hc in Hin;
        in_parts Hin; try discriminate Hin;
        injection Hin as -> -> _ _; split_and!; reflexivity.
    - destruct (DNS nc); rewrite Hc in Hin;
        in_parts Hin; try discriminate Hin;
        injection Hin as -> -> _ _; split_and!; reflexivity. }
  assert (Hlinks : forall links w',
             Forall (fun ev => touchesFile ev = false)
                    (events (Init.configureLinks env nc links) w')).
  { intros links w'. eapply Forall_impl; [apply configureLinks_quiet|].
    intros ev [H _]. exact H. }
  assert (Hwrites : forall evs : list event,
             Forall (fun ev => writesNothing ev = true) evs ->
             forall path data, EWrite path data None ∉ evs).
  { intros evs Hall path data Hin.
    rewrite Forall_forall in Hall. specialize (Hall _ Hin). discriminate Hall. }
  assert (Hquiet : forall (evs : list event) ev,
             Forall (fun ev => touchesFile ev = false) evs -> ev ∈ evs ->
             touchesFile ev = false).
  { intros evs ev Hall Hin. rewrite Forall_forall in Hall. auto. }
  unfold Init.configureNetwork. rewrite Hnc. run.
  destruct (netlink_LinkList env w) as [links|e0]; run.
  2:{ split_and!.
    - intros path data Hin. in_parts Hin. discriminate Hin.
    - intros path flag perm r Hin. in_parts Hin. discriminate Hin.
    - left. in_trace. }
  specialize (Hlinks links (w ++ [ELinkList None])).
  set (linkEvents := events (Init.configureLinks env nc links) (w ++ [ELinkList None])) in *.
  destruct (String.eqb (Gateway nc) EmptyString); cbn [negb]; run.
  { match goal with
    | |- context [events (Init.configureDNS env nc) ?w'] =>
        pose proof (Hopens w') as Hopen;
        destruct (configureDNS_refused nc w' Hlinux Hdns)
          as (e & He & Hall & [Hfail|[Hfail|(ns & Hns & Hfail)]]);
        rewrite He
    end.
    all: split_and!.
    all: try (intros path data Hin; in_parts Hin; try discriminate Hin;
              [ apply (Hquiet _ _ Hlinks) in Hin; discriminate Hin
              | eapply Hwrites; [exact Hall|exact Hin] ]).
    all: try (intros path flag perm r Hin; in_parts Hin; try discriminate Hin;
              [ apply (Hquiet _ _ Hlinks) in Hin; discriminate Hin
              | eapply Hopen; exact Hin ]).
    - right. left. find_in Hfail.
    - right. right. left. find_in Hfail.
    - right. right. right. exists ns. split; [exact Hns|find_in Hfail]. }
  destruct (net_ParseIP env (Gateway nc)) as [ip|]; run;
    destruct (netlink_RouteAdd env _ _) as [e'|] eqn:Hroute; run;
    try match goal with
        | |- context [events (Init.configureDNS env nc) ?w'] =>
            pose proof (Hopens w') as Hopen;
            destruct (configureDNS_refused nc w' Hlinux Hdns)
              as (e & He & Hall & Hfail);
            rewrite He
        end;
    (split_and!;
     [ intros path data Hin; in_parts Hin; try discriminate Hin;
       first [ apply (Hquiet _ _ Hlinks) in Hin; discriminate Hin
             | eapply Hwrites; [exact Hall|exact Hin] ]
     | intros path flag perm r Hin; in_parts Hin; try discriminate Hin;
       first [ apply (Hquiet _ _ Hlinks) in Hin; discriminate Hin
             | eapply Hopen; exact Hin ]
     | first [ eexists _, e'; in_trace
             | destruct Hfail as [Hfail|[Hfail|(ns & Hns & Hfail)]];
               [ right; left; find_in Hfail
               | right; right; left; find_in Hfail
               | right; right; right; exists ns; (split; [exact Hns|find_in Hfail]) ] ] ]).
Qed.

(** X3.  A failure on the resolver file is returned as it is: a failed
    removal, with nothing done after it; a failed creation, with nothing
    written; and a failed write, which is the first that failed, with
    the lines of the servers before it written, none after it, and the
    file closed. *)
Theorem resolver_file_failure_is_returned nc (w : World) e :
  let evs := events (Init.configureDNS env nc) w in
  let res := value (Init.configureDNS env nc) w in
  (ERemoveAll Init.resolvConf (Some e) ∈ evs ->
   res = Some e /\ evs = [ERemoveAll Init.resolvConf (Some e)])
  /\ (forall flag perm,
         EOpenFile Init.resolvConf flag perm (Some e) ∈ evs ->
         res = Some e
         /\ evs = [ ERemoveAll Init.resolvConf None;
                    EOpenFile Init.resolvConf O_CREATE 420%N (Some e) ])
  /\ (forall data,
         EWrite Init.resolvConf data (Some e) ∈ evs ->
         res = Some e
         /\ exists k ns,
             DNS nc !! k = Some ns
             /\ data = "nameserver " +:+ ns +:+ LF
             /\ evs = [ ERemoveAll Init.resolvConf None;
                        EOpenFile Init.resolvConf O_CREATE 420%N None ]
                      ++ ((fun ns => EWrite Init.resolvConf ("nameserver " +:+ ns +:+ LF) None)
                            <$> take k (DNS nc))
                      ++ [ EWrite Init.resolvConf data (Some e);
                           EClose Init.resolvConf ]).
Proof.
  cbv zeta. pose proof (configureDNS_cases nc w) as H. cbv zeta in H.
  assert (Hlines : forall (l : list string) x,
             x ∈ (resolverWrite None <$> l) -> failure x = None).
  { intros l x Hin. apply list_elem_of_fmap in Hin as (ns & -> & _). reflexivity. }
  destruct (value (Init.configureDNS env nc) w) as [e'|].
  - destruct H as [_ [H|[H|(k & ns & Hk & H)]]]; rewrite H;
      (split; [intros Hin|split; [intros flag perm Hin|intros data Hin]]).
    + in_parts Hin. injection Hin as ->. split; reflexivity.
    + in_parts Hin. discriminate Hin.
    + in_parts Hin. discriminate Hin.
    + in_parts Hin; discriminate Hin.
    + in_parts Hin; try discriminate Hin.
      injection Hin as _ _ ->. split; reflexivity.
    + in_parts Hin; discriminate Hin.
    + apply elem_of_app in Hin as [Hin|Hin]; [in_parts Hin; discriminate Hin|].
      apply elem_of_app in Hin as [Hin|Hin];
        [apply Hlines in Hin; discriminate Hin|in_parts Hin; discriminate Hin].
    + apply elem_of_app in Hin as [Hin|Hin]; [in_parts Hin; discriminate Hin|].
      apply elem_of_app in Hin as [Hin|Hin];
        [apply Hlines in Hin; discriminate Hin|in_parts Hin; discriminate Hin].
    + apply elem_of_app in Hin as [Hin|Hin]; [in_parts Hin; discriminate Hin|].
      apply elem_of_app in Hin as [Hin|Hin];
        [apply Hlines in Hin; discriminate Hin|].
      in_parts Hin; try discriminate Hin.
      injection Hin as -> ->. split; [reflexivity|].
      exists k, ns. split_and!; [exact Hk|reflexivity|reflexivity].
  - assert (Hquiet : forall x, x ∈ events (Init.configureDNS env nc) w -> failure x = None).
    { intros x Hin. rewrite H in Hin. destruct (DNS nc); [in_parts Hin|].
      apply elem_of_app in Hin as [Hin|Hin]; [in_parts Hin; subst x; reflexivity|].
      apply elem_of_app in Hin as [Hin|Hin];
        [apply Hlines in Hin; exact Hin|in_parts Hin; subst x; reflexivity]. }
    split; [intros Hin|split; [intros flag perm Hin|intros data Hin]];
      apply Hquiet in Hin; discriminate Hin.
Qed.

Lemma configureDNS_error_shown nc (w : World) e :
  value (Init.configureDNS env nc) w = Some e ->
  ERemoveAll Init.resolvConf (Some e) ∈ events (Init.configureDNS env nc) w
  \/ EOpenFile Init.resolvConf O_CREATE 420%N (Some e) ∈ events (Init.configureDNS env nc) w
  \/ exists ns, resolverWrite (Some e) ns ∈ events (Init.configureDNS env nc) w.
Proof.
  intros Hfail. pose proof (configureDNS_cases nc w) as H. cbv zeta in H.
  rewrite Hfail in H. destruct H as [_ [H|[H|(k & ns & _ & H)]]]; rewrite H.
  - left. in_list.
  - right. left. in_list.
  - right. right. exists ns. do 2 right. apply elem_of_app. right. in_list.
Qed.


(** X4.  The only errors [configureNetwork] returns are the failure to
    list the links and a failure on the resolver file: what goes wrong
    with a link, with the gateway address or with the route is never
    returned.  When the links cannot be listed nothing else is done. *)
Theorem configureNetwork_returns_only_link_list_and_resolver_errors
        config (w : World) e :
  let evs := events (Init.configureNetwork env config) w in
  (value (Init.configureNetwork env config) w = Some e ->
   ELinkList (Some e) ∈ evs
   \/ ERemoveAll Init.resolvConf (Some e) ∈ evs
   \/ EOpenFile Init.resolvConf O_CREATE 420%N (Some e) ∈ evs
   \/ exists ns, EWrite Init.resolvConf ("nameserver " +:+ ns +:+ LF) (Some e) ∈ evs)
  /\ (ELinkList (Some e) ∈ evs ->
      evs = [ELinkList (Some e)]
      /\ value (Init.configureNetwork env config) w = Some e).
Proof.
  cbv zeta. unfold Init.configureNetwork.
  destruct (NetworkConfig config) as [nc|]; run.
  2:{ split; [discriminate|]. intros H. in_cases H. }
  destruct (netlink_LinkList env w) as [links|e0]; run.
  2:{ split.
      - intros [= ->]. left. in_list.
      - intros H. in_cases H. split; reflexivity. }
  assert (Hnolist : forall evs',
             ELinkList (Some e) ∈ events (Init.configureLinks env nc links)
                                    (w ++ [ELinkList None]) ++ evs' ->
             ELinkList (Some e) ∈ evs').
  { intros evs' H. apply elem_of_app in H as [H|H]; [|exact H].
    exfalso. clear -H. revert H.
    generalize (w ++ [ELinkList None]).
    induction links as [|l rest IH]; intros w' H; [in_cases H|].
    cbn [Init.configureLinks] in H. revert H. run.
    destruct (Init.findNetconf env (LinkName l) (Interfaces nc)) as [netconf|]; run.
    - destruct (init_configureInterface env _ l netconf) as [e'|]; run; intros H.
      + do 3 (apply elem_of_cons in H as [H|H]; [discriminate|]). eapply IH, H.
      + do 2 (apply elem_of_cons in H as [H|H]; [discriminate|]). eapply IH, H.
    - intros H. do 2 (apply elem_of_cons in H as [H|H]; [discriminate|]). eapply IH, H. }
  assert (Hdns : forall w',
             value (Init.configureDNS env nc) w' = Some e ->
             forall evs : list event,
               (forall ev, ev ∈ events (Init.configureDNS env nc) w' -> ev ∈ evs) ->
               ELinkList (Some e) ∈ evs
               \/ ERemoveAll Init.resolvConf (Some e) ∈ evs
               \/ EOpenFile Init.resolvConf O_CREATE 420%N (Some e) ∈ evs
               \/ exists ns,
                   EWrite Init.resolvConf ("nameserver " +:+ ns +:+ LF) (Some e) ∈ evs).
  { intros w' Hfail evs Hsub.
    destruct (configureDNS_error_shown nc w' e Hfail) as [H|[H|[ns H]]].
    - right. left. auto.
    - right. right. left. auto.
    - right. right. right. exists ns. apply Hsub. exact H. }
  assert (Hnodns : forall w', ELinkList (Some e) ∉ events (Init.configureDNS env nc) w').
  { intros w' H. pose proof (configureDNS_cases nc w') as Hc. cbv zeta in Hc.
    destruct (value (Init.configureDNS env nc) w') as [e'|].
    - destruct Hc as [_ [Hc|[Hc|(k & ns & _ & Hc)]]]; rewrite Hc in H.
      + in_cases H.
      + in_cases H.
      + do 2 (apply elem_of_cons in H as [H|H]; [discriminate|]).
        apply elem_of_app in H as [H|H]; [|in_cases H].
        apply list_elem_of_fmap in H as (x & Hx & _). discriminate Hx.
    - destruct (DNS nc); rewrite Hc in H; [in_cases H|].
      do 2 (apply elem_of_cons in H as [H|H]; [discriminate|]).
      apply elem_of_app in H as [H|H]; [|in_cases H].
      apply list_elem_of_fmap in H as (x & Hx & _). discriminate Hx. }
  destruct (String.eqb (Gateway nc) EmptyString); cbn [negb]; run.
  { split.
    - intros Hfail. eapply Hdns; [exact Hfail|].
      intros ev Hev. find_in Hev.
    - intros H. apply elem_of_cons in H as [H|H]; [discriminate|].
      apply Hnolist in H. destruct (Hnodns _ H). }
  destruct (net_ParseIP env (Gateway nc)) as [ip|]; run;
    destruct (netlink_RouteAdd env _ _) as [e'|]; run;
    (split;
     [ first [ discriminate
             | intros Hfail; eapply Hdns; [exact Hfail|];
               intros ev Hev; find_in Hev ]
     | intros H; apply elem_of_cons in H as [H|H]; [discriminate|];
       apply Hnolist in H;
       repeat (apply elem_of_cons in H as [H|H]; [discriminate|]);
       first [ destruct (Hnodns _ H) | in_cases H ] ]).
Qed.

Lemma routesIn_none (evs : list event) :
  Forall (fun ev => isRouteAdd ev = false) evs -> routesIn evs = [].
Proof.
  induction 1 as [|ev evs Hev _ IH]; [reflexivity|].
  destruct ev; try discriminate Hev; exact IH.
Qed.

Lemma routesIn_links nc links (w : World) :
  routesIn (events (Init.configureLinks env nc links) w) = [].
Proof.
  apply routesIn_none. eapply Forall_impl; [apply configureLinks_quiet|].
  intros ev [_ H]. exact H.
Qed.

Lemma routesIn_dns nc (w : World) :
  routesIn (events (Init.configureDNS env nc) w) = [].
Proof. apply routesIn_none, configureDNS_no_route. Qed.

(** X5.  [configureNetwork] asks for at most one route, and only when a
    gateway is configured: the route is in the universe scope and its
    gateway is what [net.ParseIP] made of the configured string. *)
Theorem at_most_one_route_and_only_for_a_gateway config (w : World) :
  let evs := events (Init.configureNetwork env config) w in
  length (routesIn evs) <= 1
  /\ forall route,
      route ∈ routesIn evs ->
      exists nc,
        NetworkConfig config = Some nc
        /\ Gateway nc <> EmptyString
        /\ route = {| Scope := SCOPE_UNIVERSE; Gw := net_ParseIP env (Gateway nc) |}.
Proof.
  cbv zeta. unfold Init.configureNetwork.
  destruct (NetworkConfig config) as [nc|]; run.
  2:{ split; [lia|]. intros route H. in_cases H. }
  destruct (netlink_LinkList env w) as [links|e0]; run.
  2:{ split; [lia|]. intros route H. in_cases H. }
  unfold routesIn. rewrite !omap_app. fold routesIn. rewrite routesIn_links.
  destruct (String.eqb (Gateway nc) EmptyString) eqn:Hgw; cbn [negb]; run.
  { rewrite routesIn_dns. split; [cbn; lia|]. intros route H. in_cases H. }
  apply String.eqb_neq in Hgw.
  destruct (net_ParseIP env (Gateway nc)) as [ip|] eqn:Hip; run;
    destruct (netlink_RouteAdd env _ _) as [e'|]; run;
    rewrite ?routesIn_dns;
    (split; [cbn; lia|]);
    intros route H; in_cases H; exists nc; rewrite Hip; split_and!; auto.
Qed.

End NetworkMore.

(** A link whose configuration fails, followed by one that nothing
    matches. *)
Example flakyEth0_links :
  events (Init.configureLinks flakyEth0 eth0Only twoLinks) []
  = linkRecord (Some onEth0) {| LinkIndex := 1; LinkName := "eth0" |} (Some EIO)
    ++ linkRecord None {| LinkIndex := 2; LinkName := "wlan0" |} None.
Proof. vm_compute. reflexivity. Qed.

Lemma machine_refusesUnwritable faults links mounted image :
  refusesUnwritable (machine faults links mounted image).
Proof.
  intros w path data Hw. cbn. rewrite Hw. discriminate.
Defined.

Lemma name_servers_are_never_written_witness :
  (forall path data,
      EWrite path data None ∉ events (Init.configureNetwork calm gatewayAndDns) [])
  /\ value (Init.configureNetwork calm gatewayAndDns) [] = Some EBADF
  /\ value (Init.configureNetwork routeDown gatewayAndDns) [] = None.
Proof.
  destruct (name_servers_are_never_written calm gatewayAndDns
              {| Interfaces := []; Gateway := "10.0.0.1"; DNS := ["8.8.8.8"; "8.8.4.4"] |} [])
    as (Hwrites & _ & _).
  - apply machine_refusesUnwritable.
  - reflexivity.
  - discriminate.
  - split_and!; [exact Hwrites|reflexivity|reflexivity].
Defined.

Lemma resolver_file_failure_is_returned_witness :
  (value (Init.configureDNS stickyEtc twoServers) [] = Some EIO
   /\ events (Init.configureDNS stickyEtc twoServers) []
      = [ERemoveAll Init.resolvConf (Some EIO)])
  /\ value (Init.configureDNS calm twoServers) [] = Some EBADF.
Proof.
  split.
  - destruct (resolver_file_failure_is_returned stickyEtc twoServers [] EIO)
      as (Hremove & _ & _).
    apply Hremove. vm_compute. in_list.
  - destruct (resolver_file_failure_is_returned calm twoServers [] EBADF)
      as (_ & _ & Hwrite).
    apply (Hwrite ("nameserver 8.8.8.8" +:+ LF)). vm_compute. in_list.
Defined.

Lemma configureNetwork_returns_only_link_list_and_resolver_errors_witness :
  (ELinkList (Some EBADF) ∈ events (Init.configureNetwork calm dnsOnly) []
   \/ ERemoveAll Init.resolvConf (Some EBADF)
      ∈ events (Init.configureNetwork calm dnsOnly) []
   \/ EOpenFile Init.resolvConf O_CREATE 420%N (Some EBADF)
      ∈ events (Init.configureNetwork calm dnsOnly) []
   \/ exists ns,
       EWrite Init.resolvConf ("nameserver " +:+ ns +:+ LF) (Some EBADF)
       ∈ events (Init.configureNetwork calm dnsOnly) [])
  /\ events (Init.configureNetwork noNetlink dnsOnly) [] = [ELinkList (Some EIO)].
Proof.
  split.
  - apply (configureNetwork_returns_only_link_list_and_resolver_errors
             calm dnsOnly [] EBADF).
    vm_compute. reflexivity.
  - apply (configureNetwork_returns_only_link_list_and_resolver_errors
             noNetlink dnsOnly [] EIO).
    vm_compute. in_list.
Defined.

Lemma at_most_one_route_and_only_for_a_gateway_witness :
  exists nc,
    NetworkConfig gatewayAndDns = Some nc
    /\ Gateway nc <> EmptyString
    /\ {| Scope := SCOPE_UNIVERSE;
          Gw := Some [0; 0; 0; 0; 0; 0; 0; 0; 0; 0; 255; 255; 10; 0; 0; 1]%N |}
       = {| Scope := SCOPE_UNIVERSE; Gw := net_ParseIP calm (Gateway nc) |}.
Proof.
  apply (at_most_one_route_and_only_for_a_gateway calm gatewayAndDns []).
  vm_compute. in_list.
Defined.

(** ** The mount orchestrator and the cgroup initializer, further *)

Arguments Init.mountEach : simpl never.
Arguments Init.mountEachCgroup : simpl never.

Section MountsMore.

Variable env : Env.
Variable cgroupsMount : string.
Variable MountProcFile : string.

Lemma mountEach_only_logs_and_mounts existingMounts mounts (w : World) :
  Forall (fun ev => isLogOrMount ev = true)
         (events (Init.mountEach env existingMounts mounts) w).
Proof.
  revert w. induction mounts as [|[[location source] fstype] rest IH]; intros w.
  - constructor.
  - destruct (existingMounts !! location) as [mp|] eqn:Hloc.
    + destruct (mountEach_skip env existingMounts location source fstype rest w mp Hloc)
        as [_ ->].
      constructor; [reflexivity|apply IH].
    + destruct (mountEach_mount env existingMounts location source fstype rest w Hloc)
        as [_ ->].
      do 2 (constructor; [reflexivity|]).
      destruct (syscall_Mount env _ source location fstype EmptyString); [constructor|apply IH].
Qed.

(** The loop mounts the pending entries in order: all of them, or those
    before the first whose mount fails, and then that one last. *)
Lemma mountEach_runs existingMounts mounts (w : World) :
  let todo := pending existingMounts mounts in
  let tried := mountsIn (events (Init.mountEach env existingMounts mounts) w) in
  (value (Init.mountEach env existingMounts mounts) w = None
   /\ tried = mountCall None <$> todo)
  \/ exists k location source fstype e,
      todo !! k = Some (location, source, fstype)
      /\ tried = (mountCall None <$> take k todo)
                 ++ [(source, location, fstype, EmptyString, Some e)]
      /\ value (Init.mountEach env existingMounts mounts) w
         = Some (Errorf "failed to mount %q: %v" [AStr location; AErr e]).
Proof.
  cbv zeta. revert w.
  induction mounts as [|[[location source] fstype] rest IH]; intros w.
  - left. split; reflexivity.
  - unfold pending. destruct (existingMounts !! location) as [mp|] eqn:Hloc.
    + destruct (mountEach_skip env existingMounts location source fstype rest w mp Hloc)
        as [-> ->].
      rewrite filter_cons_False by (simpl; rewrite Hloc; discriminate).
      apply IH.
    + destruct (mountEach_mount env existingMounts location source fstype rest w Hloc)
        as [-> ->].
      rewrite filter_cons_True by exact Hloc.
      destruct (syscall_Mount env _ source location fstype EmptyString) as [e|].
      * right. exists 0, location, source, fstype, e. split_and!; reflexivity.
      * match goal with
        | |- context [value (Init.mountEach env existingMounts rest) ?w'] =>
            destruct (IH w') as [[Hval Htried]|(k & l & s0 & f & e & Hk & Htried & Hval)]
        end.
        -- left. split; [exact Hval|]. cbn. f_equal. exact Htried.
        -- right. exists (S k), l, s0, f, e.
           split_and!; [exact Hk| |exact Hval]. cbn. f_equal. exact Htried.
Qed.

Lemma pending_empty mounts : pending ∅ mounts = mounts.
Proof.
  unfold pending. induction mounts as [|m rest IH]; [reflexivity|].
  rewrite filter_cons_True by apply lookup_empty. f_equal. exact IH.
Qed.

(** X6.  A mount table that cannot be examined, for a reason other than
    its absence, or that cannot be read, makes [createSystemMounts] fail
    with an error that says so, before any mount is tried; the table is
    read only when it was found. *)
Theorem unreadable_mount_table_stops_the_mounts (w : World) e :
  let evs := events (Init.createSystemMounts env cgroupsMount MountProcFile) w in
  let res := value (Init.createSystemMounts env cgroupsMount MountProcFile) w in
  (ELstat MountProcFile (Some e) ∈ evs ->
   IsNotExist (Some e) = false ->
   res = Some (Errorf "failed to check if %q existed: %v" [AStr MountProcFile; AErr e])
   /\ evs = [ELog LInfo "Creating system mounts" []; ELstat MountProcFile (Some e)])
  /\ (EMountPoints (Some e) ∈ evs ->
      res = Some (Errorf "failed to read existing mount points: %v" [AErr e])
      /\ evs = [ ELog LInfo "Creating system mounts" []; ELstat MountProcFile None;
                 EMountPoints (Some e) ]).
Proof.
  cbv zeta. unfold Init.createSystemMounts. run.
  assert (Hloop : forall existing w' (ev : event),
             isLogOrMount ev = false ->
             ev ∉ events (Init.mountEach env existing (Init.systemMounts cgroupsMount)) w').
  { intros existing w' ev Hev Hin.
    eapply Forall_forall in Hin; [|apply mountEach_only_logs_and_mounts].
    cbn in Hin. congruence. }
  destruct (os_Lstat env _ MountProcFile) as [e0|].
  - destruct (IsNotExist (Some e0)) eqn:Hne; run.
    + split; intros H.
      * do 2 (apply elem_of_cons in H as [H|H]; [try discriminate H|]).
        { injection H as Heq. subst. intros Hf. unfold IsNotExist in *. congruence. }
        (exfalso; eapply Hloop; [|exact H]; reflexivity).
      * do 2 (apply elem_of_cons in H as [H|H]; [discriminate H|]).
        (exfalso; eapply Hloop; [|exact H]; reflexivity).
    + split; intros H; in_cases H. split; reflexivity.
  - run. destruct (proc_MountPoints env _) as [existing|e0]; run.
    + split; intros H;
        do 3 (apply elem_of_cons in H as [H|H]; [discriminate H|]);
        (exfalso; eapply Hloop; [|exact H]; reflexivity).
    + split; intros H; in_cases H. split; reflexivity.
Qed.

(** X7.  With the mount table it got, [createSystemMounts] mounts the
    default mounts that the table does not show, in the order of the
    list, each with its source and fstype and no options: all of them
    when it succeeds, and otherwise those before the first whose mount
    fails and that one last, with an error that names its target.  The
    table is empty when the table file does not exist, so that all
    defaults are due, and else what [proc.MountPoints] answers. *)
Theorem missing_defaults_are_mounted_until_one_fails (w : World) table :
  let evs := events (Init.createSystemMounts env cgroupsMount MountProcFile) w in
  let todo := pending table (Init.systemMounts cgroupsMount) in
  tableSeen env MountProcFile w = Some table ->
  (table = ∅ -> todo = Init.systemMounts cgroupsMount)
  /\ match value (Init.createSystemMounts env cgroupsMount MountProcFile) w with
     | None => mountsIn evs = mountCall None <$> todo
     | Some err =>
         exists k location source fstype e,
           todo !! k = Some (location, source, fstype)
           /\ mountsIn evs
              = (mountCall None <$> take k todo)
                ++ [(source, location, fstype, EmptyString, Some e)]
           /\ err = Errorf "failed to mount %q: %v" [AStr location; AErr e]
     end.
Proof.
  cbv zeta. unfold tableSeen, Init.createSystemMounts. intros Htable.
  split; [intros ->; apply pending_empty|].
  run.
  destruct (os_Lstat env _ MountProcFile) as [e0|].
  - destruct (IsNotExist (Some e0)); [|discriminate Htable].
    injection Htable as <-. run.
    match goal with
    | |- context [value (Init.mountEach env ∅ ?mounts) ?w'] =>
        destruct (mountEach_runs ∅ mounts w')
          as [[Hval Htried]|(k & l & s0 & f & e & Hk & Htried & Hval)]
    end; rewrite Hval.
    + exact Htried.
    + exists k, l, s0, f, e. split_and!; [exact Hk|exact Htried|reflexivity].
  - run. destruct (proc_MountPoints env _) as [existing|e0]; [|discriminate Htable].
    injection Htable as <-. run.
    match goal with
    | |- context [value (Init.mountEach env existing ?mounts) ?w'] =>
        destruct (mountEach_runs existing mounts w')
          as [[Hval Htried]|(k & l & s0 & f & e & Hk & Htried & Hval)]
    end; rewrite Hval.
    + exact Htried.
    + exists k, l, s0, f, e. split_and!; [exact Hk|exact Htried|reflexivity].
Qed.

End MountsMore.

Section CgroupsMore.

Variable env : Env.
Variable cgroupsMount : string.

Lemma mountEachCgroup_order types (w : World) :
  let tried := mountsIn (events (Init.mountEachCgroup env cgroupsMount types) w) in
  match value (Init.mountEachCgroup env cgroupsMount types) w with
  | None => tried = cgroupCall cgroupsMount None <$> types
  | Some err =>
      exists k t,
        types !! k = Some t
        /\ ((exists e,
               tried = (cgroupCall cgroupsMount None <$> take k types)
                       ++ [cgroupCall cgroupsMount (Some e) t]
               /\ err = Errorf "failed to mount cgroup %q: %v" [AStr t; AErr e])
            \/ (t = "memory"
                /\ tried = cgroupCall cgroupsMount None <$> take (S k) types
                /\ exists e,
                    err = Errorf "Failed to configure memory hierarchy: %v" [AErr e]
                    \/ err = Errorf "Failed to configure memory heirarchy: %v" [AErr e]))
  end.
Proof.
  cbv zeta. revert w. induction types as [|cgrouptype rest IH]; intros w; [reflexivity|].
  destruct (String.eqb cgrouptype "memory") eqn:Hmem.
  - apply String.eqb_eq in Hmem. subst cgrouptype.
    destruct (mountEachCgroup_memory env cgroupsMount rest w) as [Hv He].
    cbv zeta in Hv, He. rewrite Hv, He. clear Hv He.
    destruct (syscall_Mount env _ "none" _ "cgroup" "memory") as [e|].
    { exists 0, "memory". split; [reflexivity|]. left. exists e. split; reflexivity. }
    match goal with
    | |- context [value (Init.setUseHierarchy env ?l) ?w'] =>
        destruct (setUseHierarchy_run env cgroupsMount w') as [Hv He]
    end.
    cbv zeta in Hv, He. rewrite Hv, He. clear Hv He.
    destruct (os_OpenFile env _ _ _ 420%N) as [e|].
    { exists 0, "memory". split; [reflexivity|]. right.
      split_and!; [reflexivity|reflexivity|]. exists e. left. reflexivity. }
    destruct (file_Write env _ _ ("1" +:+ LF)) as [e|].
    { exists 0, "memory". split; [reflexivity|]. right.
      split_and!; [reflexivity|reflexivity|]. exists e. right. reflexivity. }
    match goal with
    | |- context [value (Init.mountEachCgroup env cgroupsMount rest) ?w'] =>
        specialize (IH w');
        destruct (value (Init.mountEachCgroup env cgroupsMount rest) w') as [err|]
    end.
    + destruct IH as (k & t & Hk & [(e & Htried & Herr)|(Ht & Htried & Herr)]);
        exists (S k), t; (split; [exact Hk|]).
      * left. exists e. split; [|exact Herr]. cbn. f_equal. exact Htried.
      * right. split_and!; [exact Ht| |exact Herr]. cbn. f_equal. exact Htried.
    + cbn. f_equal. exact IH.
  - destruct (mountEachCgroup_other env cgroupsMount cgrouptype rest w Hmem) as [Hv He].
    cbv zeta in Hv, He. rewrite Hv, He. clear Hv He.
    destruct (syscall_Mount env _ "none" _ "cgroup" cgrouptype) as [e|].
    { exists 0, cgrouptype. split; [reflexivity|]. left. exists e. split; reflexivity. }
    match goal with
    | |- context [value (Init.mountEachCgroup env cgroupsMount rest) ?w'] =>
        specialize (IH w');
        destruct (value (Init.mountEachCgroup env cgroupsMount rest) w') as [err|]
    end.
    + destruct IH as (k & t & Hk & [(e & Htried & Herr)|(Ht & Htried & Herr)]);
        exists (S k), t; (split; [exact Hk|]).
      * left. exists e. split; [|exact Herr]. cbn. f_equal. exact Htried.
      * right. split_and!; [exact Ht| |exact Herr]. cbn. f_equal. exact Htried.
    + cbn. f_equal. exact IH.
Qed.

(** X8.  [mountCgroups] mounts the controllers in the order blkio, cpu,
    cpuacct, devices, memory, each as a cgroup filesystem at its
    directory under the cgroup mount, with the controller name as the
    mount option.  It succeeds only with all five mounted; the first
    mount that fails ends it, with an error that names the controller
    and with no later controller tried, and so does a failure to set the
    memory hierarchy. *)
Theorem cgroups_mounted_in_order_until_first_failure (w : World) :
  let tried := mountsIn (events (Init.mountCgroups env cgroupsMount) w) in
  match value (Init.mountCgroups env cgroupsMount) w with
  | None => tried = cgroupCall cgroupsMount None <$> Init.cgroupTypes
  | Some err =>
      exists k t,
        Init.cgroupTypes !! k = Some t
        /\ ((exists e,
               tried = (cgroupCall cgroupsMount None <$> take k Init.cgroupTypes)
                       ++ [cgroupCall cgroupsMount (Some e) t]
               /\ err = Errorf "failed to mount cgroup %q: %v" [AStr t; AErr e])
            \/ (t = "memory"
                /\ tried = cgroupCall cgroupsMount None <$> take (S k) Init.cgroupTypes
                /\ exists e,
                    err = Errorf "Failed to configure memory hierarchy: %v" [AErr e]
                    \/ err = Errorf "Failed to configure memory heirarchy: %v" [AErr e]))
  end.
Proof.
  cbv zeta. unfold Init.mountCgroups.
  rewrite value_bind, events_bind, events_log.
  change (mountsIn ([ELog LInfo "Setting up cgroups" []] ++ ?l)) with (mountsIn l).
  apply mountEachCgroup_order.
Qed.

Let hpath : string :=
  Go.Join (Go.Join cgroupsMount "memory") "memory.use_hierarchy".

(** A trace in which the only file touched is the hierarchy file, opened
    for writing, written with [1] and closed when it was opened. *)
Let hierarchyOnly (evs : list event) : Prop :=
  (forall ev,
      ev ∈ evs -> touchesFile ev = true ->
      (exists r, ev = EOpenFile hpath (N.lor O_WRONLY O_TRUNC) 420%N r)
      \/ (exists r, ev = EWrite hpath ("1" +:+ LF) r)
      \/ ev = EClose hpath)
  /\ (EClose hpath ∈ evs <-> exists fl p, EOpenFile hpath fl p None ∈ evs).

Lemma hierarchyOnly_app evs1 evs2 :
  hierarchyOnly evs1 -> hierarchyOnly evs2 -> hierarchyOnly (evs1 ++ evs2).
Proof.
  intros [A1 A2] [B1 B2]. split.
  - intros ev Hin. apply elem_of_app in Hin as [Hin|Hin]; auto.
  - rewrite elem_of_app, A2, B2. split.
    + intros [(fl & p & H)|(fl & p & H)]; exists fl, p; apply elem_of_app; auto.
    + intros (fl & p & H). apply elem_of_app in H as [H|H]; [left|right]; eauto.
Qed.

Lemma hierarchyOnly_quiet evs :
  Forall (fun ev => isLogOrMount ev = true) evs -> hierarchyOnly evs.
Proof.
  intros Hall. split.
  - intros ev Hin Hfile. eapply Forall_forall in Hin; [|exact Hall].
    destruct ev; discriminate.
  - split.
    + intros Hin. eapply Forall_forall in Hin; [|exact Hall]. discriminate.
    + intros (fl & p & Hin). eapply Forall_forall in Hin; [|exact Hall]. discriminate.
Qed.

Lemma hierarchyOnly_closure (w : World) :
  hierarchyOnly (events (Init.setUseHierarchy env (Go.Join cgroupsMount "memory")) w).
Proof.
  destruct (setUseHierarchy_run env cgroupsMount w) as [_ He]. cbv zeta in He.
  rewrite He. clear He. fold hpath.
  destruct (os_OpenFile env w hpath _ 420%N) as [e|].
  - split.
    + intros ev Hin _. in_cases Hin. left. eexists. reflexivity.
    + split; [intros H; in_cases H|intros (fl & p & H); in_cases H].
  - split.
    + intros ev Hin _. in_cases Hin.
      * left. eexists. reflexivity.
      * right. left. eexists. reflexivity.
      * right. right. reflexivity.
    + split; [intros _; eexists _, _; in_list|intros _; in_list].
Qed.

Lemma mountEachCgroup_hierarchyOnly types (w : World) :
  hierarchyOnly (events (Init.mountEachCgroup env cgroupsMount types) w).
Proof.
  revert w. induction types as [|cgrouptype rest IH]; intros w.
  { apply hierarchyOnly_quiet. constructor. }
  destruct (String.eqb cgrouptype "memory") eqn:Hmem.
  - apply String.eqb_eq in Hmem. subst cgrouptype.
    destruct (mountEachCgroup_memory env cgroupsMount rest w) as [_ He].
    cbv zeta in He. rewrite He. clear He.
    apply (hierarchyOnly_app [_; _]).
    { apply hierarchyOnly_quiet. repeat constructor. }
    destruct (syscall_Mount env _ "none" _ "cgroup" "memory") as [e|].
    { apply hierarchyOnly_quiet. constructor. }
    apply hierarchyOnly_app; [apply hierarchyOnly_closure|].
    destruct (value (Init.setUseHierarchy env _) _);
      [apply hierarchyOnly_quiet; constructor|apply IH].
  - destruct (mountEachCgroup_other env cgroupsMount cgrouptype rest w Hmem) as [_ He].
    cbv zeta in He. rewrite He. clear He.
    apply (hierarchyOnly_app [_; _]).
    { apply hierarchyOnly_quiet. repeat constructor. }
    destruct (syscall_Mount env _ "none" _ "cgroup" cgrouptype) as [e|];
      [apply hierarchyOnly_quiet; constructor|apply IH].
Qed.

(** X9.  The only file [mountCgroups] touches is [memory.use_hierarchy]
    under the memory controller: it is opened write-only and truncating,
    nothing but [1] and a line feed is written to it, and it is closed
    exactly when it was opened. *)
Theorem cgroups_touch_only_the_hierarchy_file (w : World) :
  let evs := events (Init.mountCgroups env cgroupsMount) w in
  (forall ev,
      ev ∈ evs -> touchesFile ev = true ->
      (exists r, ev = EOpenFile hpath (N.lor O_WRONLY O_TRUNC) 420%N r)
      \/ (exists r, ev = EWrite hpath ("1" +:+ LF) r)
      \/ ev = EClose hpath)
  /\ (EClose hpath ∈ evs <-> exists fl p, EOpenFile hpath fl p None ∈ evs).
Proof.
  cbv zeta. unfold Init.mountCgroups.
  rewrite events_bind, events_log.
  apply (hierarchyOnly_app [_]).
  - apply hierarchyOnly_quiet. repeat constructor.
  - apply mountEachCgroup_hierarchyOnly.
Qed.

End CgroupsMore.

Lemma unreadable_mount_table_stops_the_mounts_witness :
  events (Init.createSystemMounts noProcAccess "/sys/fs/cgroup" "/proc/mounts") []
  = [ELog LInfo "Creating system mounts" []; ELstat "/proc/mounts" (Some EIO)]
  /\ value (Init.createSystemMounts garbledMounts "/sys/fs/cgroup" "/proc/mounts") []
     = Some (Errorf "failed to read existing mount points: %v" [AErr EIO]).
Proof.
  split.
  - apply (unreadable_mount_table_stops_the_mounts
             noProcAccess "/sys/fs/cgroup" "/proc/mounts" [] EIO).
    + vm_compute. in_list.
    + reflexivity.
  - apply (unreadable_mount_table_stops_the_mounts
             garbledMounts "/sys/fs/cgroup" "/proc/mounts" [] EIO).
    vm_compute. in_list.
Defined.

Lemma missing_defaults_are_mounted_until_one_fails_witness :
  mountsIn (events (Init.createSystemMounts freshBoot "/sys/fs/cgroup" "/proc/mounts") [])
  = [ ("devtmpfs", "/dev", "devtmpfs", EmptyString, None);
      ("none", "/dev/pts", "devpts", EmptyString, None);
      ("none", "/proc", "proc", EmptyString, None);
      ("none", "/sys", "sysfs", EmptyString, None);
      ("none", "/tmp", "tmpfs", EmptyString, None);
      ("none", "/var/kurma", "tmpfs", EmptyString, None);
      ("none", "/sys/fs/cgroup", "tmpfs", EmptyString, None) ]
  /\ exists k location source fstype e,
      pending devAndProc (Init.systemMounts "/sys/fs/cgroup") !! k
      = Some (location, source, fstype)
      /\ mountsIn (events (Init.createSystemMounts nestedBoot "/sys/fs/cgroup"
                                                   "/proc/mounts") [])
         = (mountCall None
              <$> take k (pending devAndProc (Init.systemMounts "/sys/fs/cgroup")))
           ++ [(source, location, fstype, EmptyString, Some e)]
      /\ value (Init.createSystemMounts nestedBoot "/sys/fs/cgroup" "/proc/mounts") []
         = Some (Errorf "failed to mount %q: %v" [AStr location; AErr e]).
Proof.
  split.
  - destruct (missing_defaults_are_mounted_until_one_fails
                freshBoot "/sys/fs/cgroup" "/proc/mounts" [] ∅) as [Hall Hrun].
    + reflexivity.
    + change (value (Init.createSystemMounts freshBoot "/sys/fs/cgroup" "/proc/mounts") [])
        with (@None error) in Hrun.
      rewrite Hrun, Hall by reflexivity. reflexivity.
  - destruct (missing_defaults_are_mounted_until_one_fails
                nestedBoot "/sys/fs/cgroup" "/proc/mounts" [] devAndProc) as [_ Hrun].
    + reflexivity.
    + destruct (value (Init.createSystemMounts nestedBoot "/sys/fs/cgroup" "/proc/mounts") [])
        as [err|] eqn:Hval; [|vm_compute in Hval; discriminate Hval].
      destruct Hrun as (k & l & s0 & f & e & Hk & Htried & ->).
      exists k, l, s0, f, e. split_and!; [exact Hk|exact Htried|reflexivity].
Defined.

Lemma cgroups_touch_only_the_hierarchy_file_witness :
  EClose "/sys/fs/cgroup/memory/memory.use_hierarchy"
  ∈ events (Init.mountCgroups brokenHierarchy "/sys/fs/cgroup") [].
Proof.
  apply (cgroups_touch_only_the_hierarchy_file brokenHierarchy "/sys/fs/cgroup" []).
  exists (N.lor O_WRONLY O_TRUNC), 420%N. vm_compute. in_list.
Defined.

(** ** The initial containers, further *)

Section InitContainersMore.

Variable env : Env.






End InitContainersMore.


(** ** Manifest extraction, further *)

Lemma scanEntries_at_manifest pre h post stop :
  (forall h', h' ∈ pre -> Go.Clean (hdrName h') <> "manifest") ->
  Go.Clean (hdrName h) = "manifest" ->
  Create.scanEntries (pre ++ h :: post) stop
  = match payload h with
    | Err e => Err e
    | Ok b => Ok b
    end.
Proof.
  intros Hpre Hname. rewrite scanEntries_skip by exact Hpre.
  cbn [Create.scanEntries]. rewrite Hname. reflexivity.
Qed.

(** Either no entry is named [manifest], or there is a first one. *)
Lemma first_manifest_entry (entries : list tarEntry) :
  (forall h, h ∈ entries -> Go.Clean (hdrName h) <> "manifest")
  \/ exists pre h post,
      entries = pre ++ h :: post
      /\ (forall h', h' ∈ pre -> Go.Clean (hdrName h') <> "manifest")
      /\ Go.Clean (hdrName h) = "manifest".
Proof.
  induction entries as [|h rest IH].
  - left. intros h H. in_cases H.
  - destruct (String.eqb (Go.Clean (hdrName h)) "manifest") eqn:Hname.
    + apply String.eqb_eq in Hname. right. exists [], h, rest.
      split_and!; [reflexivity| |exact Hname]. intros h' H. in_cases H.
    + apply String.eqb_neq in Hname. destruct IH as [IH|(pre & m & post & -> & Hpre & Hm)].
      * left. intros h' H. apply elem_of_cons in H as [->|H]; auto.
      * right. exists (h :: pre), m, post. split_and!; [reflexivity| |exact Hm].
        intros h' H. apply elem_of_cons in H as [->|H]; auto.
Qed.

(** X11.  A read error aborts [findManifest] with that error: when the
    compression of the stream cannot be detected, when the stream breaks
    off before an entry named [manifest] was delivered, and when the
    first such entry cannot be read to its end, whatever follows it. *)
Theorem findManifest_read_error_aborts :
  (forall e, Create.findManifest (BadStream e) = Err e)
  /\ (forall entries e,
         (forall h, h ∈ entries -> Go.Clean (hdrName h) <> "manifest") ->
         Create.findManifest (TarStream entries (Some e)) = Err e)
  /\ (forall pre h post stop e,
         (forall h', h' ∈ pre -> Go.Clean (hdrName h') <> "manifest") ->
         Go.Clean (hdrName h) = "manifest" ->
         payload h = Err e ->
         Create.findManifest (TarStream (pre ++ h :: post) stop) = Err e).
Proof.
  split_and!.
  - reflexivity.
  - intros entries e Hnone. cbn [Create.findManifest].
    rewrite <- (app_nil_r entries). rewrite scanEntries_skip by exact Hnone.
    reflexivity.
  - intros pre h post stop e Hpre Hname Hpay. cbn [Create.findManifest].
    rewrite scanEntries_at_manifest by assumption. rewrite Hpay. reflexivity.
Qed.

Lemma findManifest_read_error_aborts_witness :
  Create.findManifest (TarStream [shellEntry] (Some EIO)) = Err EIO
  /\ Create.findManifest (TarStream ([shellEntry] ++ damagedManifest :: [manifestEntry]) None)
     = Err EIO.
Proof.
  destruct findManifest_read_error_aborts as (_ & Hstop & Hpay).
  assert (Hshell : forall h', h' ∈ [shellEntry] -> Go.Clean (hdrName h') <> "manifest").
  { intros h' H. in_cases H. apply String.eqb_neq. vm_compute. reflexivity. }
  split.
  - apply Hstop. exact Hshell.
  - apply Hpay; [exact Hshell|reflexivity|reflexivity].
Defined.

(** X12.  What [findManifest] returns is never the content of another
    entry: a content it returns is that of an entry whose cleaned path is
    [manifest] and before which no entry has that cleaned path. *)
Theorem findManifest_returns_only_the_first_manifest r X :
  Create.findManifest r = Ok X ->
  exists pre h post stop,
    r = TarStream (pre ++ h :: post) stop
    /\ (forall h', h' ∈ pre -> Go.Clean (hdrName h') <> "manifest")
    /\ Go.Clean (hdrName h) = "manifest"
    /\ payload h = Ok X.
Proof.
  destruct r as [e|entries stop]; [discriminate|]. cbn [Create.findManifest].
  destruct (first_manifest_entry entries) as [Hnone|(pre & h & post & -> & Hpre & Hname)].
  - rewrite <- (app_nil_r entries). rewrite scanEntries_skip by exact Hnone.
    cbn. destruct stop; discriminate.
  - rewrite scanEntries_at_manifest by assumption.
    destruct (payload h) as [b|e] eqn:Hpay; [|discriminate].
    intros [= ->]. exists pre, h, post, stop. split_and!; auto.
Qed.

Lemma findManifest_returns_only_the_first_manifest_witness :
  exists pre h post stop,
    smallImage = TarStream (pre ++ h :: post) stop
    /\ (forall h', h' ∈ pre -> Go.Clean (hdrName h') <> "manifest")
    /\ Go.Clean (hdrName h) = "manifest"
    /\ payload h = Ok braces.
Proof.
  apply (findManifest_returns_only_the_first_manifest smallImage braces).
  vm_compute. reflexivity.
Defined.

(** X13.  [findManifest] looks at nothing after the first entry named
    [manifest]: the entries that follow it, and the way the stream ends,
    do not change the result. *)
Theorem findManifest_ignores_what_follows_the_manifest pre h post post' stop stop' :
  (forall h', h' ∈ pre -> Go.Clean (hdrName h') <> "manifest") ->
  Go.Clean (hdrName h) = "manifest" ->
  Create.findManifest (TarStream (pre ++ h :: post) stop)
  = Create.findManifest (TarStream (pre ++ h :: post') stop').
Proof.
  intros Hpre Hname. cbn [Create.findManifest].
  rewrite !scanEntries_at_manifest by assumption. reflexivity.
Qed.

Lemma findManifest_ignores_what_follows_the_manifest_witness :
  Create.findManifest (TarStream ([shellEntry] ++ manifestEntry :: [damagedManifest]) (Some EIO))
  = Create.findManifest (TarStream ([shellEntry] ++ manifestEntry :: []) None).
Proof.
  apply findManifest_ignores_what_follows_the_manifest.
  - intros h' H. in_cases H. apply String.eqb_neq. vm_compute. reflexivity.
  - reflexivity.
Defined.

(** ** The [create] command, further *)


Lemma acks_of_accepted uploadId (l : list bytes) : acks (accepted uploadId <$> l) = [].
Proof. induction l as [|chunk l IH]; [reflexivity|exact IH]. Qed.

Lemma closes_of_accepted uploadId (l : list bytes) : closes (accepted uploadId <$> l) = [].
Proof. induction l as [|chunk l IH]; [reflexivity|exact IH]. Qed.

Lemma last_of_three_parts (l1 l2 : list event) x y : last (l1 ++ l2 ++ [x; y]) = Some y.
Proof.
  change [x; y] with ([x] ++ [y]). rewrite !app_assoc. apply last_snoc.
Qed.


Section CreateMore.

Variable env : Env.
Variable chunkSize : positive.

Let C : nat := Pos.to_nat chunkSize.


(** [create] runs in one of the eight ways. *)
Lemma create_runs (arg : string) (w : World) :
  createRun C arg (value (Create.create env chunkSize arg) w)
            (events (Create.create env chunkSize arg) w).
Proof.
  unfold Create.create. run.
  destruct (os_Open env w arg) as [f|e]; run; [|constructor].
  destruct (Create.findManifest (archive f)) as [manifest|e] eqn:Hm; run;
    [|constructor; exact Hm].
  destruct (file_Seek env _ arg 0%Z 0%nat) as [e|]; run;
    [econstructor; exact Hm|].
  destruct (client_Create env _ manifest) as [resp|e]; run;
    [|econstructor; exact Hm].
  destruct (client_UploadImage env _) as [e|]; run;
    [econstructor; exact Hm|].
  match goal with
  | |- context [value (Create.copyFrom env chunkSize ?id ?stop ?data) ?w'] =>
      destruct (copyFrom_runs env chunkSize id stop data w')
        as [[Hevs Hval]|(k & chunk & e & Hk & Hevs & Hval)]
  end; rewrite Hevs, Hval; clear Hevs Hval.
  - destruct (readError f) as [e|] eqn:Hread; run.
    + eapply eq_ind; [apply (run_read_failed C arg f manifest resp e Hm Hread)|].
      cbn [app]. rewrite <- ?app_assoc. reflexivity.
    + eapply eq_ind; [apply (run_sent C arg f manifest resp _ Hm Hread)|].
      cbn [app]. rewrite <- ?app_assoc. reflexivity.
  - run.
    eapply eq_ind; [apply (run_write_failed C arg f manifest resp k chunk e Hm Hk)|].
    cbn [app]. rewrite <- ?app_assoc. reflexivity.
Qed.


(** X15.  [create] closes the image file it opened exactly once, as the
    last thing it does, however it ends; when the file cannot be opened
    it does nothing else and returns the error of the open. *)
Theorem create_closes_the_image_last (arg : string) (w : World) :
  let evs := events (Create.create env chunkSize arg) w in
  (forall f, EOpen arg (Ok f) ∈ evs ->
             closes evs = [arg] /\ last evs = Some (EClose arg))
  /\ (forall e, EOpen arg (Err e) ∈ evs ->
                evs = [EOpen arg (Err e)]
                /\ value (Create.create env chunkSize arg) w = Some e).
Proof.
  cbv zeta. generalize (create_runs arg w).
  generalize (value (Create.create env chunkSize arg) w)
             (events (Create.create env chunkSize arg) w).
  intros r evs.
  intros Hrun.
  destruct Hrun; (split; [intros f0 Hin|intros e0 Hin]);
    try (in_parts Hin; try discriminate Hin);
    try (split; reflexivity);
    try (injection Hin as ->; split; reflexivity).
  - split.
    + unfold closes. rewrite !omap_app. fold closes. rewrite closes_of_accepted. reflexivity.
    + apply last_of_three_parts.
  - split.
    + unfold closes. rewrite !omap_app. fold closes. rewrite closes_of_accepted. reflexivity.
    + rewrite !app_assoc. apply last_snoc.
  - split.
    + unfold closes. rewrite !omap_app. fold closes. rewrite closes_of_accepted. reflexivity.
    + apply last_of_three_parts.
Qed.

(** X16.  [create] keeps the order of the protocol.  The manifest it
    sends with the create request is the one extracted from the opened
    image, and it is sent only after the file was rewound; the upload
    stream is opened only after the server answered the create request;
    a chunk is sent only on an opened stream and under the identifier of
    that answer; the acknowledgment is awaited only when no chunk
    failed. *)
Theorem create_keeps_the_protocol_order (arg : string) (w : World) :
  let evs := events (Create.create env chunkSize arg) w in
  (forall manifest r0,
      EClientCreate manifest r0 ∈ evs ->
      exists f,
        EOpen arg (Ok f) ∈ evs
        /\ Create.findManifest (archive f) = Ok manifest
        /\ ESeek arg 0%Z 0%nat None ∈ evs)
  /\ (forall r0,
         EUploadImage r0 ∈ evs -> exists manifest resp, EClientCreate manifest (Ok resp) ∈ evs)
  /\ (forall id chunk r0,
         ESend id chunk r0 ∈ evs ->
         EUploadImage None ∈ evs
         /\ exists manifest resp,
             EClientCreate manifest (Ok resp) ∈ evs /\ id = ImageUploadId resp)
  /\ (forall r0,
         ECloseAndRecv r0 ∈ evs -> forall id chunk e, ESend id chunk (Some e) ∉ evs).
Proof.
  cbv zeta. generalize (create_runs arg w).
  generalize (value (Create.create env chunkSize arg) w)
             (events (Create.create env chunkSize arg) w).
  intros r evs.
  intros Hrun. destruct Hrun; split_and!.
  all: try (intros m0 r0 Hin; in_parts Hin; try discriminate Hin;
            injection Hin as -> ->; exists f;
            (split_and!; [in_trace|assumption|in_trace])).
  all: try (intros r0 Hin; in_parts Hin; try discriminate Hin;
            exists manifest, resp; in_trace).
  all: try (intros id ch r0 Hin; in_parts Hin; try discriminate Hin;
            injection Hin as -> _ _;
            (split; [in_trace|exists manifest, resp; (split; [in_trace|reflexivity])])).
  all: try (intros r0 Hin; in_parts Hin; discriminate Hin).
  intros r0 Hack id ch e' Hin. in_parts Hin; discriminate Hin.
Qed.

(** X17.  When a chunk cannot be sent, [create] stops sending: the failed
    chunk is the last thing before the file is closed, no chunk before it
    failed, no acknowledgment is awaited, and the error returned is the
    failure wrapped as a write error. *)
Theorem create_stops_at_the_first_failed_chunk (arg : string) (w : World) id chunk e :
  let evs := events (Create.create env chunkSize arg) w in
  ESend id chunk (Some e) ∈ evs ->
  value (Create.create env chunkSize arg) w = Some (Errorf "write error: %v" [AErr e])
  /\ acks evs = []
  /\ exists pre,
      evs = pre ++ [ESend id chunk (Some e); EClose arg]
      /\ forall id' chunk' e', ESend id' chunk' (Some e') ∉ pre.
Proof.
  cbv zeta. generalize (create_runs arg w).
  generalize (value (Create.create env chunkSize arg) w)
             (events (Create.create env chunkSize arg) w).
  intros r evs.
  intros Hrun Hin. destruct Hrun; in_parts Hin; try discriminate Hin.
  injection Hin as -> -> ->. split_and!.
  - reflexivity.
  - unfold acks. rewrite !omap_app. fold acks. rewrite acks_of_accepted. reflexivity.
  - eexists. split; [apply app_assoc|].
    intros id' chunk' e' Hin. in_parts Hin; discriminate Hin.
Qed.

End CreateMore.


Lemma create_closes_the_image_last_witness :
  last (events (Create.create deafRegistry 2%positive "image.aci") [])
  = Some (EClose "image.aci")
  /\ events (Create.create noSuchImage 2%positive "image.aci") []
     = [EOpen "image.aci" (Err EIO)].
Proof.
  split.
  - apply (create_closes_the_image_last deafRegistry 2%positive "image.aci" [])
      with (f := fiveBytes).
    vm_compute. in_list.
  - apply (create_closes_the_image_last noSuchImage 2%positive "image.aci" [])
      with (e := EIO).
    vm_compute. in_list.
Defined.

Lemma create_keeps_the_protocol_order_witness :
  EUploadImage None ∈ events (Create.create registry 2%positive "image.aci") []
  /\ exists f,
      EOpen "image.aci" (Ok f) ∈ events (Create.create registry 2%positive "image.aci") []
      /\ Create.findManifest (archive f) = Ok braces
      /\ ESeek "image.aci" 0%Z 0%nat None
         ∈ events (Create.create registry 2%positive "image.aci") [].
Proof.
  destruct (create_keeps_the_protocol_order registry 2%positive "image.aci" [])
    as (Hcreate & _ & Hsend & _).
  split.
  - apply (Hsend "upload-1" [Byte.x05] None). vm_compute. in_list.
  - apply (Hcreate braces (Ok {| ImageUploadId := "upload-1" |})). vm_compute. in_list.
Defined.

Lemma create_stops_at_the_first_failed_chunk_witness :
  value (Create.create deafRegistry 2%positive "image.aci") []
  = Some (Errorf "write error: %v" [AErr EIO])
  /\ acks (events (Create.create deafRegistry 2%positive "image.aci") []) = [].
Proof.
  destruct (create_stops_at_the_first_failed_chunk
              deafRegistry 2%positive "image.aci" [] "upload-1" [Byte.x01; Byte.x02] EIO)
    as (Hres & Hacks & _).
  - vm_compute. in_list.
  - split; assumption.
Defined.

(** ** Running steps over the host *)

Lemma returned_bind {A B} (m : X A) (k : A -> X B) w :
  returned (m ≫= k) w = returned (k (returned m w)) (w ++ actions m w).
Proof.
  unfold returned, actions, mbind, X_bind.
  destruct (m w) as [a acts1]. simpl.
  destruct (k a (w ++ acts1)). reflexivity.
Qed.

Lemma actions_bind {A B} (m : X A) (k : A -> X B) w :
  actions (m ≫= k) w
  = actions m w ++ actions (k (returned m w)) (w ++ actions m w).
Proof.
  unfold returned, actions, mbind, X_bind.
  destruct (m w) as [a acts1]. simpl.
  destruct (k a (w ++ acts1)). reflexivity.
Qed.

Lemma returned_ret {A} (a : A) w : returned (mret a : X A) w = a.
Proof. reflexivity. Qed.

Lemma actions_ret {A} (a : A) w : actions (mret a : X A) w = [].
Proof. reflexivity. Qed.

Lemma returned_ask {R} (oracle : list action -> R) (a : R -> action) w :
  returned (ask oracle a) w = oracle w.
Proof. reflexivity. Qed.

Lemma actions_ask {R} (oracle : list action -> R) (a : R -> action) w :
  actions (ask oracle a) w = [a (oracle w)].
Proof. reflexivity. Qed.

Lemma actions_act (a : action) w : actions (act a) w = [a].
Proof. reflexivity. Qed.

Create Rewrite HintDb xrun.
#[global] Hint Rewrite @returned_bind @actions_bind @returned_ret @actions_ret
  @returned_ask @actions_ask actions_act : xrun.

Ltac xrun := autorewrite with xrun; simpl.

(** ** Kernel modules *)

Section ModulesMore.

Variable host : Host.

Arguments Boot.probeEach : simpl never.

Lemma probeEach_nil w : actions (Boot.probeEach host []) w = [].
Proof. reflexivity. Qed.

Lemma probeEach_cons name rest w :
  actions (Boot.probeEach host (name :: rest)) w
  = let err := exec_Run host w "/sbin/modprobe" [name] in
    let first := AExec "/sbin/modprobe" [name] err
                 :: match err with
                    | Some _ => [ALog LError "- Failed to load module: %s" [AStr name]]
                    | None => []
                    end in
    first ++ actions (Boot.probeEach host rest) (w ++ first).
Proof.
  unfold Boot.probeEach at 1. fold (Boot.probeEach host).
  xrun. destruct (exec_Run host w "/sbin/modprobe" [name]); xrun;
    rewrite <- ?app_assoc; reflexivity.
Qed.

Lemma probeEach_execs modules w :
  execs (actions (Boot.probeEach host modules) w)
  = (fun name => ("/sbin/modprobe", [name])) <$> modules.
Proof.
  revert w. induction modules as [|name rest IH]; intros w.
  - reflexivity.
  - rewrite probeEach_cons. cbv zeta. unfold execs in *.
    rewrite omap_app, IH.
    destruct (exec_Run host w "/sbin/modprobe" [name]); reflexivity.
Qed.

Lemma probeEach_failures_logged modules w name e :
  AExec "/sbin/modprobe" [name] (Some e) ∈ actions (Boot.probeEach host modules) w ->
  ALog LError "- Failed to load module: %s" [AStr name]
    ∈ actions (Boot.probeEach host modules) w.
Proof.
  revert w. induction modules as [|m rest IH]; intros w.
  - rewrite probeEach_nil. intros H. inversion H.
  - rewrite probeEach_cons. cbv zeta.
    destruct (exec_Run host w "/sbin/modprobe" [m]) as [e'|];
      rewrite !elem_of_app, !elem_of_cons; intros H.
    + destruct H as [[H|[H|H]]|H].
      * injection H as -> _. auto.
      * discriminate H.
      * inversion H.
      * right. eapply IH. exact H.
    + destruct H as [[H|H]|H].
      * discriminate H.
      * inversion H.
      * right. eapply IH. exact H.
Qed.

Lemma probeEach_only_logs_failures modules w lvl fmt args :
  ALog lvl fmt args ∈ actions (Boot.probeEach host modules) w ->
  exists name e,
    lvl = LError /\ args = [AStr name] /\ name ∈ modules
    /\ AExec "/sbin/modprobe" [name] (Some e) ∈ actions (Boot.probeEach host modules) w.
Proof.
  revert w. induction modules as [|m rest IH]; intros w.
  - rewrite probeEach_nil. intros H. inversion H.
  - rewrite probeEach_cons. cbv zeta.
    destruct (exec_Run host w "/sbin/modprobe" [m]) as [e'|];
      rewrite !elem_of_app, !elem_of_cons; intros H.
    + destruct H as [[H|[H|H]]|H].
      * discriminate H.
      * injection H as -> _ ->. exists m, e'. split_and!; auto.
        -- left.
        -- rewrite !elem_of_app, !elem_of_cons. auto.
      * inversion H.
      * destruct (IH _ H) as (n & e & ? & ? & ? & ?).
        exists n, e. split_and!; auto.
        -- right. assumption.
        -- rewrite !elem_of_app. auto.
    + destruct H as [[H|H]|H].
      * discriminate H.
      * inversion H.
      * destruct (IH _ H) as (n & e & ? & ? & ? & ?).
        exists n, e. split_and!; auto.
        -- right. assumption.
        -- rewrite !elem_of_app. auto.
Qed.

(** X18. [loadModules] never returns an error; with no module configured
    it does nothing at all, and otherwise it first logs the modules joined
    by a comma and a space and then runs [/sbin/modprobe] once for every
    module, in the configured order whatever failed before, logging as an
    error each module whose load failed and nothing else. *)
Theorem every_module_is_probed_and_no_failure_is_returned modules w :
  let acts := actions (Boot.loadModules host modules) w in
  returned (Boot.loadModules host modules) w = None
  /\ (modules = [] -> acts = [])
  /\ (modules <> [] ->
      head acts = Some (ALog LInfo "Loading specified modules [%s]"
                             [AStr (joinWith ", " modules)]))
  /\ execs acts = (fun name => ("/sbin/modprobe", [name])) <$> modules
  /\ (forall name e, AExec "/sbin/modprobe" [name] (Some e) ∈ acts ->
                     ALog LError "- Failed to load module: %s" [AStr name] ∈ acts)
  /\ (forall fmt args, ALog LError fmt args ∈ acts ->
                       exists name e, args = [AStr name]
                                      /\ AExec "/sbin/modprobe" [name] (Some e) ∈ acts).
Proof.
  cbv zeta. unfold Boot.loadModules.
  destruct modules as [|m rest].
  - simpl. xrun. split_and!; auto.
    + intros H. congruence.
    + intros ? ? H. inversion H.
    + intros ? ? H. inversion H.
  - change (length (m :: rest) =? 0)%nat with false. cbv iota.
    xrun. rewrite app_nil_r. split_and!; auto.
    + intros H. discriminate H.
    + apply probeEach_execs.
    + intros name e H. right. apply elem_of_cons in H as [H|H]; [discriminate H|].
      eapply probeEach_failures_logged. exact H.
    + intros fmt args H. apply elem_of_cons in H as [H|H]; [discriminate H|].
      destruct (probeEach_only_logs_failures _ _ _ _ _ H) as (n & e & _ & ? & _ & ?).
      exists n, e. split; [assumption|]. right. assumption.
Qed.

End ModulesMore.

(** ** The list command *)

Section ListMore.

Variable host : Host.

(** The row of a container whose manifest decoded. *)
Let rowOf (c : Container) (m : ContainerRuntimeManifest) : list string :=
  [Uuid c; ListCmd.firstAppName m; state_String host (State c)].

Lemma addRows_rows containers : forall rows0 rows,
  ListCmd.addRows host containers rows0 = ListCmd.Rows rows ->
  exists manifests,
    Forall2 (fun c m => json_Unmarshal host (Manifest c) = Ok (Some m))
            containers manifests
    /\ rows = rows0 ++ zip_with rowOf containers manifests.
Proof.
  induction containers as [|c rest IH]; intros rows0 rows H; simpl in H.
  - injection H as <-. exists []. split; [constructor|].
    simpl. rewrite app_nil_r. reflexivity.
  - destruct (json_Unmarshal host (Manifest c)) as [[m|]|e] eqn:Hc; try discriminate H.
    destruct (IH _ _ H) as (ms & Hall & ->).
    exists (m :: ms). split; [constructor; assumption|].
    simpl. rewrite <- app_assoc. reflexivity.
Qed.

Lemma addRows_stops containers : forall rows0,
  match ListCmd.addRows host containers rows0 with
  | ListCmd.Rows _ => True
  | ListCmd.Failed e =>
      exists before c after manifests,
        containers = before ++ c :: after
        /\ Forall2 (fun c m => json_Unmarshal host (Manifest c) = Ok (Some m))
                   before manifests
        /\ json_Unmarshal host (Manifest c) = Err e
  | ListCmd.Crashed =>
      exists before c after manifests,
        containers = before ++ c :: after
        /\ Forall2 (fun c m => json_Unmarshal host (Manifest c) = Ok (Some m))
                   before manifests
        /\ json_Unmarshal host (Manifest c) = Ok None
  end.
Proof.
  induction containers as [|c rest IH]; intros rows0; simpl.
  - exact I.
  - destruct (json_Unmarshal host (Manifest c)) as [[m|]|e] eqn:Hc.
    + specialize (IH (rows0 ++ [[Uuid c; ListCmd.firstAppName m;
                                 state_String host (State c)]])).
      destruct (ListCmd.addRows host rest _) as [rows|e|]; [exact I| |];
        destruct IH as (before & c' & after & ms & -> & Hall & Hc');
        exists (c :: before), c', after, (m :: ms);
        (split_and!; [reflexivity|constructor; assumption|assumption]).
    + exists [], c, rest, []. split_and!; [reflexivity|constructor|assumption].
    + exists [], c, rest, []. split_and!; [reflexivity|constructor|assumption].
Qed.

Lemma addRows_complete containers manifests : forall rows0,
  Forall2 (fun c m => json_Unmarshal host (Manifest c) = Ok (Some m))
          containers manifests ->
  ListCmd.addRows host containers rows0
  = ListCmd.Rows (rows0 ++ zip_with rowOf containers manifests).
Proof.
  intros rows0 H. revert rows0.
  induction H as [|c m cs ms Hc _ IH]; intros rows0; simpl.
  - rewrite app_nil_r. reflexivity.
  - rewrite Hc, IH, <- app_assoc. reflexivity.
Qed.

(** How [list] runs, by the answers it gets. *)
Lemma list_runs w :
  let out := returned (ListCmd.list host) w in
  let acts := actions (ListCmd.list host) w in
  (exists e, acts = [ADial "localhost:12311" (Some e)] /\ out = Returns (Some e))
  \/ (exists e, acts = [ADial "localhost:12311" None; AList (Err e); AConnClose]
                /\ out = Returns (Some e))
  \/ (exists containers,
         acts = [ADial "localhost:12311" None; AList (Ok containers); AConnClose]
         /\ ((exists e, ListCmd.addRows host containers [] = ListCmd.Failed e
                        /\ out = Returns (Some e))
             \/ (ListCmd.addRows host containers [] = ListCmd.Crashed /\ out = Panics)))
  \/ (exists containers rows,
         acts = [ADial "localhost:12311" None; AList (Ok containers);
                 APrintf "%s" [PTable ["UUID"; "Name"; "State"] rows]; AConnClose]
         /\ ListCmd.addRows host containers [] = ListCmd.Rows rows
         /\ out = Returns None).
Proof.
  cbv zeta. unfold ListCmd.list. xrun.
  destruct (grpc_Dial host w "localhost:12311") as [e|] eqn:Hdial.
  - left. exists e. xrun. auto.
  - right. xrun.
    destruct (kurma_List host _) as [containers|e] eqn:Hlist.
    + right. destruct (ListCmd.addRows host containers []) as [rows|e|] eqn:Hrows; xrun.
      * right. exists containers, rows. auto.
      * left. exists containers. split; [reflexivity|]. left. exists e. auto.
      * left. exists containers. split; [reflexivity|]. right. auto.
    + left. exists e. xrun. auto.
Qed.

(** X19. When [list] succeeds it has printed exactly one table, after the
    answer of the server and before closing the connection: its headers
    are UUID, Name and State and it has one row for every container of
    the answer, in the order of the answer, holding the uuid of the
    container, the name of the first app of its decoded manifest (empty
    when the manifest has no app) and the name of its state. *)
Theorem list_prints_one_row_per_container w :
  returned (ListCmd.list host) w = Returns None ->
  exists containers manifests,
    actions (ListCmd.list host) w
    = [ADial "localhost:12311" None; AList (Ok containers);
       APrintf "%s" [PTable ["UUID"; "Name"; "State"]
                            (zip_with (fun c m => [Uuid c; ListCmd.firstAppName m;
                                                   state_String host (State c)])
                                      containers manifests)];
       AConnClose]
    /\ Forall2 (fun c m => json_Unmarshal host (Manifest c) = Ok (Some m))
               containers manifests.
Proof.
  intros Hout.
  destruct (list_runs w) as [(e & _ & H)|[(e & _ & H)|[(cs & _ & H)|(cs & rows & Hacts & Hrows & _)]]].
  - rewrite H in Hout. discriminate Hout.
  - rewrite H in Hout. discriminate Hout.
  - destruct H as [(e & _ & H)|[_ H]]; rewrite H in Hout; discriminate Hout.
  - destruct (addRows_rows _ _ _ Hrows) as (ms & Hall & ->).
    exists cs, ms. split; [exact Hacts|exact Hall].
Qed.

(** X20. The first manifest of the answer that does not decode to a
    manifest decides how [list] ends: a decoding error is returned, and a
    manifest that decodes to nil makes [list] panic.  In both cases the
    containers before it have not been printed: nothing is printed at
    all, and the connection is still closed at the end. *)
Theorem list_prints_nothing_when_a_manifest_is_bad w before c after manifests :
  AList (Ok (before ++ c :: after)) ∈ actions (ListCmd.list host) w ->
  Forall2 (fun c m => json_Unmarshal host (Manifest c) = Ok (Some m)) before manifests ->
  (forall m, json_Unmarshal host (Manifest c) <> Ok (Some m)) ->
  returned (ListCmd.list host) w
  = match json_Unmarshal host (Manifest c) with
    | Err e => Returns (Some e)
    | Ok _ => Panics
    end
  /\ (forall a, a ∈ actions (ListCmd.list host) w -> isPrintf a = false)
  /\ last (actions (ListCmd.list host) w) = Some AConnClose.
Proof.
  intros Hin Hbefore Hbad.
  assert (Hrows : ListCmd.addRows host (before ++ c :: after) []
                  = match json_Unmarshal host (Manifest c) with
                    | Err e => ListCmd.Failed e
                    | Ok _ => ListCmd.Crashed
                    end).
  { clear Hin. generalize (@nil (list string)).
    induction Hbefore as [|c0 m0 cs ms Hc0 _ IH]; intros rows0; simpl.
    - destruct (json_Unmarshal host (Manifest c)) as [[m|]|e] eqn:Hc;
        [destruct (Hbad m); reflexivity|reflexivity|reflexivity].
    - rewrite Hc0. apply IH. }
  destruct (list_runs w) as [(e & Hacts & H)|[(e & Hacts & H)|[(cs & Hacts & H)|(cs & rows & Hacts & Hr & _)]]];
    rewrite Hacts in Hin |- *.
  - apply list_elem_of_singleton in Hin. discriminate Hin.
  - rewrite !elem_of_cons in Hin.
    destruct Hin as [Hin|[Hin|[Hin|Hin]]]; try discriminate Hin. inversion Hin.
  - assert (cs = before ++ c :: after) as ->.
    { rewrite !elem_of_cons in Hin.
      destruct Hin as [Hin|[Hin|[Hin|Hin]]]; try discriminate Hin; [|inversion Hin].
      injection Hin as ->. reflexivity. }
    rewrite Hrows in H. split_and!.
    + destruct H as [(e & He & ->)|[Hc ->]];
        destruct (json_Unmarshal host (Manifest c)) as [[m|]|e']; congruence.
    + intros a Ha. rewrite !elem_of_cons in Ha.
      destruct Ha as [->|[->|[->|Ha]]]; try reflexivity. inversion Ha.
    + reflexivity.
  - assert (cs = before ++ c :: after) as ->.
    { rewrite !elem_of_cons in Hin.
      destruct Hin as [Hin|[Hin|[Hin|[Hin|Hin]]]]; try discriminate Hin; [|inversion Hin].
      injection Hin as ->. reflexivity. }
    rewrite Hrows in Hr.
    destruct (json_Unmarshal host (Manifest c)) as [[m|]|e']; discriminate Hr.
Qed.

(** X21. [list] closes the connection exactly when it was established,
    and then as the last thing it does, however it ends; when dialing
    fails it returns that error and does nothing else, and when the
    server does not answer it returns that error. *)
Theorem list_closes_the_connection_it_dialed w :
  let out := returned (ListCmd.list host) w in
  let acts := actions (ListCmd.list host) w in
  head acts = Some (ADial "localhost:12311" (grpc_Dial host w "localhost:12311"))
  /\ (forall e, ADial "localhost:12311" (Some e) ∈ acts ->
                acts = [ADial "localhost:12311" (Some e)] /\ out = Returns (Some e))
  /\ (ADial "localhost:12311" None ∈ acts ->
      last acts = Some AConnClose
      /\ connCloses acts = 1)
  /\ (forall e, AList (Err e) ∈ acts -> out = Returns (Some e)).
Proof.
  cbv zeta.
  split.
  { unfold ListCmd.list. xrun. reflexivity. }
  destruct (list_runs w) as [(e & Hacts & H)|[(e & Hacts & H)|[(cs & Hacts & H)|(cs & rows & Hacts & Hr & H)]]];
    rewrite Hacts; split_and!.
  - intros e0 Hin. in_parts Hin. injection Hin as ->. auto.
  - intros Hin. in_parts Hin. discriminate Hin.
  - intros e0 Hin. in_parts Hin. discriminate Hin.
  - intros e0 Hin. in_parts Hin; discriminate Hin.
  - intros _. split; reflexivity.
  - intros e0 Hin. in_parts Hin; try discriminate Hin.
    injection Hin as ->. assumption.
  - intros e0 Hin. in_parts Hin; discriminate Hin.
  - intros _. split; reflexivity.
  - intros e0 Hin. in_parts Hin; discriminate Hin.
  - intros e0 Hin. in_parts Hin; discriminate Hin.
  - intros _. split; reflexivity.
  - intros e0 Hin. in_parts Hin; discriminate Hin.
Qed.

End ListMore.

Lemma list_prints_one_row_per_container_witness :
  exists containers manifests,
    actions (ListCmd.list twoContainers) []
    = [ADial "localhost:12311" None; AList (Ok containers);
       APrintf "%s" [PTable ["UUID"; "Name"; "State"]
                            (zip_with (fun c m => [Uuid c; ListCmd.firstAppName m;
                                                   state_String twoContainers (State c)])
                                      containers manifests)];
       AConnClose]
    /\ Forall2 (fun c m => json_Unmarshal twoContainers (Manifest c) = Ok (Some m))
               containers manifests.
Proof.
  apply (list_prints_one_row_per_container twoContainers []).
  vm_compute. reflexivity.
Defined.

Lemma list_prints_nothing_when_a_manifest_is_bad_witness :
  (returned (ListCmd.list nullManifest) [] = Panics
   /\ last (actions (ListCmd.list nullManifest) []) = Some AConnClose)
  /\ (returned (ListCmd.list cutManifest) []
      = Returns (Some (Errno "unexpected end of JSON input"))
      /\ last (actions (ListCmd.list cutManifest) []) = Some AConnClose).
Proof.
  split.
  - destruct (list_prints_nothing_when_a_manifest_is_bad
                nullManifest [] [webContainer] nullContainer [dbContainer]
                [{| Apps := [{| AppName := "web" |}] |}]) as (Hout & _ & Hlast).
    + vm_compute. in_trace.
    + constructor; [vm_compute; reflexivity|constructor].
    + intros m H. vm_compute in H. discriminate H.
    + split; [exact Hout|exact Hlast].
  - destruct (list_prints_nothing_when_a_manifest_is_bad
                cutManifest [] [webContainer] cutContainer [dbContainer]
                [{| Apps := [{| AppName := "web" |}] |}]) as (Hout & _ & Hlast).
    + vm_compute. in_trace.
    + constructor; [vm_compute; reflexivity|constructor].
    + intros m H. vm_compute in H. discriminate H.
    + split; [exact Hout|exact Hlast].
Defined.

(** ** Showing the network *)

Section DisplayMore.

Variable host : Host.

Arguments Boot.printAddrs : simpl never.
Arguments Boot.printInterfaces : simpl never.

Let header : action := APrintf ("INTERFACES:" +:+ LF) [].
Let interfaceLine (i : NetInterface) : action :=
  APrintf (TAB +:+ "%#v" +:+ LF) [PInterface i].
Let addrLine (a : string) : action :=
  APrintf (TAB +:+ TAB +:+ "addr: %v" +:+ LF) [PAddr a].

Lemma printAddrs_actions ad w :
  actions (Boot.printAddrs ad) w = addrLine <$> ad.
Proof.
  revert w. induction ad as [|a rest IH]; intros w.
  - reflexivity.
  - unfold Boot.printAddrs. fold Boot.printAddrs.
    xrun. rewrite IH. reflexivity.
Qed.

Lemma printInterfaces_cons i rest w :
  actions (Boot.printInterfaces host (i :: rest)) w
  = interfaceLine i
    :: match iface_Addrs host (w ++ [interfaceLine i]) i with
       | Err e => [AAddrs i (Err e)]
       | Ok ad =>
           AAddrs i (Ok ad)
           :: (addrLine <$> ad)
           ++ actions (Boot.printInterfaces host rest)
                      (w ++ interfaceLine i :: AAddrs i (Ok ad) :: (addrLine <$> ad))
       end
  /\ returned (Boot.printInterfaces host (i :: rest)) w
     = match iface_Addrs host (w ++ [interfaceLine i]) i with
       | Err e => Some e
       | Ok ad =>
           returned (Boot.printInterfaces host rest)
                    (w ++ interfaceLine i :: AAddrs i (Ok ad) :: (addrLine <$> ad))
       end.
Proof.
  unfold Boot.printInterfaces. fold (Boot.printInterfaces host).
  xrun. fold (interfaceLine i).
  destruct (iface_Addrs host (w ++ [interfaceLine i]) i) as [ad|e]; xrun.
  - rewrite printAddrs_actions, <- !app_assoc. simpl. auto.
  - auto.
Qed.

(** The loop over the interfaces does not list the interfaces again. *)
Lemma printInterfaces_lists_nothing interfaces : forall w r,
  AInterfaces r ∉ actions (Boot.printInterfaces host interfaces) w.
Proof.
  induction interfaces as [|i rest IH]; intros w r H.
  - inversion H.
  - destruct (printInterfaces_cons i rest w) as [Hacts _]. rewrite Hacts in H.
    destruct (iface_Addrs host (w ++ [interfaceLine i]) i) as [ad|e];
      in_parts H; try discriminate H.
    eapply IH. exact H.
Qed.

(** The loop over the interfaces leaves the record of each interface in
    turn, up to the first whose addresses cannot be read. *)
Lemma printInterfaces_records interfaces : forall w,
  exists answers,
    actions (Boot.printInterfaces host interfaces) w
    = concat (zip_with interfaceRecord interfaces answers)
    /\ match returned (Boot.printInterfaces host interfaces) w with
       | None =>
           exists ads, answers = Ok <$> ads /\ length ads = length interfaces
       | Some e =>
           exists ads,
             answers = (Ok <$> ads) ++ [Err e]
             /\ (length ads < length interfaces)%nat
       end.
Proof.
  induction interfaces as [|i rest IH]; intros w.
  - exists []. split; [reflexivity|]. exists []. split; reflexivity.
  - destruct (printInterfaces_cons i rest w) as [-> ->].
    destruct (iface_Addrs host (w ++ [interfaceLine i]) i) as [ad|e].
    + destruct (IH (w ++ interfaceLine i :: AAddrs i (Ok ad) :: (addrLine <$> ad)))
        as (answers & Hacts & Hout).
      exists (Ok ad :: answers). split.
      * rewrite Hacts. reflexivity.
      * destruct (returned (Boot.printInterfaces host rest) _) as [e|];
          destruct Hout as (ads & -> & Hlen); exists (ad :: ads);
          (split; [reflexivity|cbn [length]; lia]).
    + exists [Err e]. split; [destruct rest; reflexivity|].
      exists []. split; [reflexivity|cbn [length]; lia].
Qed.

(** X22.  [displayNetwork] prints the header first and then lists the
    interfaces.  For every interface in the order of the list it prints
    the line of the interface, asks for its addresses and prints a line
    for each address answered, before it turns to the next interface.  It
    returns no error when it has done so for all interfaces; at the first
    interface whose addresses cannot be read it returns that error, having
    printed nothing after the line of that interface. *)
Theorem displayNetwork_prints_each_interface_with_its_addresses w :
  let acts := actions (Boot.displayNetwork host) w in
  let out := returned (Boot.displayNetwork host) w in
  let listed := net_Interfaces host (w ++ [APrintf ("INTERFACES:" +:+ LF) []]) in
  exists answers,
    acts = APrintf ("INTERFACES:" +:+ LF) []
           :: AInterfaces listed
           :: match listed with
              | Ok interfaces => concat (zip_with interfaceRecord interfaces answers)
              | Err _ => []
              end
    /\ match listed with
       | Err e => out = Some e
       | Ok interfaces =>
           match out with
           | None =>
               exists ads, answers = Ok <$> ads /\ length ads = length interfaces
           | Some e =>
               exists ads,
                 answers = (Ok <$> ads) ++ [Err e]
                 /\ (length ads < length interfaces)%nat
           end
       end.
Proof.
  cbv zeta. unfold Boot.displayNetwork. xrun. fold header.
  destruct (net_Interfaces host (w ++ [header])) as [interfaces|e]; xrun.
  - destruct (printInterfaces_records interfaces ((w ++ [header]) ++ [AInterfaces (Ok interfaces)]))
      as (answers & Hacts & Hout).
    exists answers. rewrite Hacts. split; [reflexivity|exact Hout].
  - exists []. split; reflexivity.
Qed.

(** X23. When the interfaces cannot be listed, [displayNetwork] returns
    that error having printed the header and nothing else. *)
Theorem displayNetwork_returns_the_listing_error w e :
  AInterfaces (Err e) ∈ actions (Boot.displayNetwork host) w ->
  returned (Boot.displayNetwork host) w = Some e
  /\ actions (Boot.displayNetwork host) w
     = [APrintf ("INTERFACES:" +:+ LF) []; AInterfaces (Err e)].
Proof.
  unfold Boot.displayNetwork. xrun. fold header.
  destruct (net_Interfaces host (w ++ [header])) as [l|e']; xrun.
  - intros Hin. exfalso. in_parts Hin; try discriminate Hin.
    destruct (printInterfaces_lists_nothing l _ _ Hin).
  - intros Hin. in_parts Hin; try discriminate Hin.
    injection Hin as ->. auto.
Qed.

End DisplayMore.

(** Three interfaces, the second unreadable. *)
Example wiredUnreadable_display :
  Boot.displayNetwork wiredUnreadable []
  = (Some EIO,
     APrintf ("INTERFACES:" +:+ LF) []
     :: AInterfaces (Ok [loopback; wired; spare])
     :: interfaceRecord loopback (Ok ["127.0.0.1/8"; "::1/128"])
     ++ interfaceRecord wired (Err EIO)).
Proof. vm_compute. reflexivity. Qed.

Lemma displayNetwork_returns_the_listing_error_witness :
  returned (Boot.displayNetwork noInterfaces) [] = Some EIO
  /\ actions (Boot.displayNetwork noInterfaces) []
     = [APrintf ("INTERFACES:" +:+ LF) []; AInterfaces (Err EIO)].
Proof.
  apply (displayNetwork_returns_the_listing_error noInterfaces [] EIO).
  vm_compute. in_trace.
Defined.

(** ** The configuration file, the directories and the manager *)

Section ConfigurationMore.

Variable host : Host.
Variable configurationFile : string.

(** X24. [loadConfigurationFile] changes the configuration only by
    merging a document it decoded without error, and it closes the file
    whenever it opened it, also when decoding fails.  A file that does
    not exist is no error and leaves the configuration as it is; any
    other error of opening and any error of decoding is returned and
    leaves the configuration as it is. *)
Theorem configuration_changes_only_by_a_decoded_file config w :
  let err := fst (returned (Boot.loadConfigurationFile host configurationFile config) w) in
  let config' := snd (returned (Boot.loadConfigurationFile host configurationFile config) w) in
  let acts := actions (Boot.loadConfigurationFile host configurationFile config) w in
  head acts = Some (AOpen configurationFile (os_OpenPath host w configurationFile))
  /\ (forall e, AOpen configurationFile (Some e) ∈ acts ->
                acts = [AOpen configurationFile (Some e)]
                /\ config' = config
                /\ err = if IsNotExist (Some e) then None else Some e)
  /\ (AOpen configurationFile None ∈ acts ->
      last acts = Some (ACloseFile configurationFile)
      /\ exists d, acts = [AOpen configurationFile None;
                           ADecode configurationFile d;
                           ACloseFile configurationFile])
  /\ (forall e, ADecode configurationFile (Err e) ∈ acts ->
                config' = config /\ err = Some e)
  /\ (forall disk, ADecode configurationFile (Ok disk) ∈ acts ->
                   config' = mergeConfig host config disk /\ err = None).
Proof.
  cbv zeta. unfold Boot.loadConfigurationFile. xrun.
  destruct (os_OpenPath host w configurationFile) as [e|]; xrun.
  - destruct e as [|name|format args]; xrun; split_and!.
    all: try reflexivity.
    all: try (intros x Hin; in_parts Hin; try discriminate Hin).
    all: try (injection Hin as ->; auto).
    all: try (intros Hin; in_parts Hin; discriminate Hin).
  - destruct (json_Decode host (w ++ [AOpen configurationFile None]) configurationFile)
      as [disk|e] eqn:Hd; xrun; split_and!.
    all: try reflexivity.
    all: try (intros x Hin; in_parts Hin; try discriminate Hin).
    all: try (injection Hin as <-; auto).
    all: try (intros _; split; [reflexivity|eexists; reflexivity]).
Qed.

(** X25. [launchManager] replaces the manager of the runner exactly when
    it returns no error, by the manager made for the parent cgroup and
    the container directory of the configuration, and only then it
    changes to [/var/kurma], as the last thing it does.  When the manager
    cannot be made that error is returned, and without [Paths] in the
    configuration it panics before doing anything; in both cases the
    manager stays as it was. *)
Theorem launchManager_replaces_the_manager_only_on_success name paths manager w :
  let out := fst (returned (Boot.launchManager host name paths manager) w) in
  let manager' := snd (returned (Boot.launchManager host name paths manager) w) in
  let acts := actions (Boot.launchManager host name paths manager) w in
  (out = Panics <-> paths = None)
  /\ (out = Panics -> acts = [])
  /\ (out <> Returns None -> manager' = manager /\ forall dir, AChdir dir ∉ acts)
  /\ (out = Returns None ->
      exists p m,
        paths = Some p
        /\ manager' = Some m
        /\ acts = [ANewManager {| ParentCgroupName := name;
                                  ContainerDirectory := Containers p |} (Ok m);
                   ALog LTrace "Container Manager has been initialized." [];
                   AChdir "/var/kurma"])
  /\ (forall opts e, ANewManager opts (Err e) ∈ acts -> out = Returns (Some e)).
Proof.
  cbv zeta. unfold Boot.launchManager.
  destruct paths as [p|]; xrun.
  - destruct (container_NewManager host w _) as [m|e]; xrun; split_and!.
    all: try (split; intros H; discriminate H).
    all: try (intros H; discriminate H).
    + intros H. destruct H. reflexivity.
    + intros _. exists p, m. auto.
    + intros opts e Hin. in_parts Hin; discriminate Hin.
    + intros _. split; [reflexivity|].
      intros dir Hin. in_parts Hin. discriminate Hin.
    + intros opts e0 Hin. in_parts Hin. injection Hin as _ ->. reflexivity.
  - split_and!.
    + split; reflexivity.
    + reflexivity.
    + intros _. split; [reflexivity|]. intros dir Hin. inversion Hin.
    + intros H. discriminate H.
    + intros opts e Hin. inversion Hin.
Qed.

(** X26. [createDirectories] does not guard [launchManager]: on every
    configuration on which [launchManager] panics, [createDirectories]
    returns no error and creates nothing. *)
Theorem createDirectories_passes_what_launchManager_panics_on name paths manager w w' :
  fst (returned (Boot.launchManager host name paths manager) w') = Panics ->
  returned (Boot.createDirectories host paths) w = None
  /\ actions (Boot.createDirectories host paths) w = [].
Proof.
  unfold Boot.launchManager, Boot.createDirectories.
  destruct paths as [p|]; xrun.
  - destruct (container_NewManager host w' _); xrun; intros H; discriminate H.
  - auto.
Qed.

End ConfigurationMore.

Lemma createDirectories_passes_what_launchManager_panics_on_witness :
  returned (Boot.createDirectories quiet None) [] = None
  /\ actions (Boot.createDirectories quiet None) [] = [].
Proof.
  apply (createDirectories_passes_what_launchManager_panics_on
           quiet "kurma" None None [] []).
  reflexivity.
Defined.
